(** * Tarteel reciter matching: feature aggregation, cascaded similarity, ranking

    A shallow embedding of [lib/audio/python_processor.py], of the ranking
    loop of [app/api/process-recitation/route.py] and of the window cutting
    of [lib/speaker_prediction/predictor.py].

    Numbers.  A Python [float] and a numpy [float64] are IEEE-754 binary64
    values; they are modelled by Rocq's primitive floats, whose operations are
    the same correctly rounded binary64 operations (NaN, signed zeros and
    infinities included).  Python integers are [Z] or [nat].  librosa
    returns float32 arrays; a float32 value is a binary64 value, and where
    the code compares such an array with a Python float (the pause threshold)
    the cast to float32 is [float32_of].

    Libraries.  numpy reductions, librosa and fastdtw are not part of the
    repository: they enter as interfaces ([Numpy], [FastDTW], [Librosa]),
    with the few laws of theirs that the proofs use ([NumpyLaws],
    [LibrosaLaws]).  Each interface comes with a small executable reference
    instance that is used to run the code on concrete inputs.

    Scope.  [process_audio] is modelled from the decoded buffer to the
    fingerprint, the segments and the pitch, formant and pause arrays;
    [create_sequence_features] gives the sequence matrix of the returned
    dictionary.  The command-line handler, the database calls and the network
    of the classifier are left out.  [print] is not modelled. *)

From Stdlib Require Import String.
From Stdlib Require Import Floats ZArith List Bool Lia Sorted Permutation Uint63.
Import ListNotations.

Set Warnings "-inexact-float,-level-tolerance,-abstract-large-number".

(** ** Arrays *)

Definition vec := list float.
(** A 2-D array, row-major: [np.mean(m, axis=1)] reduces every row. *)
Definition matrix := list vec.

Definition of_nat (n : nat) : float := PrimFloat.of_uint63 (Uint63.of_Z (Z.of_nat n)).
Definition of_Z (z : Z) : float :=
  if (z <? 0)%Z then PrimFloat.opp (PrimFloat.of_uint63 (Uint63.of_Z (- z)))
  else PrimFloat.of_uint63 (Uint63.of_Z z).

(** ** Python exceptions and results *)

Inductive exn : Type :=
| ValueError
| IndexError
| ZeroDivisionError
| DecodeError.

Inductive result (A : Type) : Type :=
| Ok (a : A)
| Raise (e : exn).
Arguments Ok {A} a.
Arguments Raise {A} e.

Definition rbind {A B} (r : result A) (k : A -> result B) : result B :=
  match r with
  | Ok a => k a
  | Raise e => Raise e
  end.

(** ** The matcher's effects: exceptions and a log of library calls

    The log records, in order, every evaluation of [np.dot], every call of
    [fastdtw] and every entry into [compare_segments].  A raised exception
    keeps the log written so far. *)

Inductive call : Type :=
| call_np_dot
| call_fastdtw
| call_compare_segments.

Definition M (A : Type) : Type := list call -> result A * list call.

Definition ret {A} (a : A) : M A := fun log => (Ok a, log).
Definition raise {A} (e : exn) : M A := fun log => (Raise e, log).
Definition bind {A B} (m : M A) (k : A -> M B) : M B :=
  fun log =>
    match m log with
    | (Ok a, log') => k a log'
    | (Raise e, log') => (Raise e, log')
    end.
Definition lift {A} (r : result A) : M A := fun log => (r, log).
Definition tick (c : call) : M unit := fun log => (Ok tt, log ++ [c]).
(** [try: m except Exception as e: h e] *)
Definition try_except {A} (m : M A) (h : exn -> M A) : M A :=
  fun log =>
    match m log with
    | (Ok a, log') => (Ok a, log')
    | (Raise e, log') => h e log'
    end.

Declare Scope py_scope.
Delimit Scope py_scope with py.
Notation "x <- c ;; k" := (bind c (fun x => k))
  (at level 61, c at next level, right associativity) : py_scope.
Notation "c ;;; k" := (bind c (fun _ => k))
  (at level 61, right associativity) : py_scope.

Fixpoint mapM {A B} (f : A -> M B) (l : list A) : M (list B) :=
  match l with
  | [] => ret []
  | x :: tl => (y <- f x ;; ys <- mapM f tl ;; ret (y :: ys))%py
  end.

(** ** Python and numpy scalar helpers *)

Local Open Scope float_scope.

(** [max(a, b)] of Python: the first argument unless the second is greater. *)
Definition py_max (a b : float) : float := if a <? b then b else a.
(** [min(a, b)] of Python: the first argument unless the second is smaller. *)
Definition py_min (a b : float) : float := if b <? a then b else a.

(** [x / n] for a Python float [x] and a Python int [n]. *)
Definition py_truediv (x : float) (n : nat) : result float :=
  match n with
  | O => Raise ZeroDivisionError
  | _ => Ok (x / of_nat n)
  end.

Definition is_zero_vec (v : vec) : bool := forallb PrimFloat.is_zero v.

(** The cast of a float64 to float32 ([np.float32(x)]): rounding to the
    nearest value with a mantissa of 24 bits, ties to even, with the overflow
    and the subnormal numbers of binary32.  The result is a float64 that is a
    float32 value. *)
Definition float32_of (x : float) : float :=
  match Prim2SF x with
  | S754_finite s m e => SF2Prim (binary_round 24 128 s m e)
  | _ => x
  end.

(** ** numpy *)

Class Numpy : Type := {
  (** the reduction of [np.dot] on two 1-D arrays of equal length *)
  np_inner : vec -> vec -> float;
  (** [np.linalg.norm] of a 1-D array *)
  np_linalg_norm : vec -> float;
  (** [np.mean] of a 1-D array *)
  np_mean : vec -> float;
  (** [np.std] of a 1-D array *)
  np_std : vec -> float;
  (** the promotion rule for a Python float that meets a float32 scalar:
      [true] for NumPy 2, where the Python float adapts and the operation is a
      float32 operation, [false] for NumPy 1, where the result is a float64 *)
  np_weak_scalars : bool
}.

(** What the development uses of numpy's arithmetic, whatever the order of
    summation: the norm of a vector of zeros is zero, the norm of a vector
    with a NaN component is NaN, and the mean of an empty array is NaN. *)
Class NumpyLaws {NP : Numpy} : Prop := {
  np_linalg_norm_zero : forall v, is_zero_vec v = true -> np_linalg_norm v = 0;
  np_linalg_norm_nan : forall v, existsb PrimFloat.is_nan v = true -> np_linalg_norm v = nan;
  np_mean_empty : np_mean [] = nan
}.

(** A sequential (left to right) model of the reductions. *)
Definition seq_sum (v : vec) : float := fold_left PrimFloat.add v 0.
Definition seq_inner (a b : vec) : float :=
  fold_left (fun acc p => acc + fst p * snd p) (combine a b) 0.
Definition seq_norm (v : vec) : float := PrimFloat.sqrt (seq_inner v v).
Definition seq_mean (v : vec) : float := seq_sum v / of_nat (length v).
Definition seq_std (v : vec) : float :=
  let m := seq_mean v in
  PrimFloat.sqrt (seq_mean (map (fun x => (x - m) * (x - m)) v)).

Definition seq_numpy : Numpy :=
  {| np_inner := seq_inner; np_linalg_norm := seq_norm; np_mean := seq_mean; np_std := seq_std;
     np_weak_scalars := true |}.
(** The same reductions under the promotion rule of NumPy 1. *)
Definition seq_numpy_legacy : Numpy :=
  {| np_inner := seq_inner; np_linalg_norm := seq_norm; np_mean := seq_mean; np_std := seq_std;
     np_weak_scalars := false |}.

(** [np.max] of a 1-D array; NaN propagates, an empty array raises. *)
Definition np_max_step (acc x : float) : float :=
  if PrimFloat.is_nan acc then acc
  else if PrimFloat.is_nan x then x
  else if acc <? x then x else acc.
Definition np_max (v : vec) : result float :=
  match v with
  | [] => Raise ValueError
  | x :: tl => Ok (fold_left np_max_step tl x)
  end.

(** [v.argmax()]: the first index of the maximum (of the first NaN if any).
    numpy raises on an empty array; the only caller applies it to a column of
    [piptrack]'s magnitudes, which has [1 + n_fft/2] bins, and 0 stands for
    that case here. *)
Fixpoint argmax_from (best : float) (best_idx idx : nat) (v : vec) : nat :=
  match v with
  | [] => best_idx
  | x :: tl =>
      if PrimFloat.is_nan best then best_idx
      else if PrimFloat.is_nan x || (best <? x)
           then argmax_from x idx (S idx) tl
           else argmax_from best best_idx (S idx) tl
  end.
Definition argmax (v : vec) : nat :=
  match v with
  | [] => 0%nat
  | x :: tl => argmax_from x 0%nat 1%nat tl
  end.

(** [m.shape[1]] of [np.array(m)]: an empty list gives a 1-D array. *)
Definition shape1 (m : matrix) : result nat :=
  match m with
  | [] => Raise IndexError
  | r :: _ => Ok (length r)
  end.
(** the number of columns, 0 for an array without rows *)
Definition ncols (m : matrix) : nat :=
  match m with
  | [] => 0%nat
  | r :: _ => length r
  end.
(** [m[:, t]] *)
Definition column (t : nat) (m : matrix) : vec := map (fun row => nth t row 0) m.
(** [m.T], as the list of the columns *)
Definition transpose (m : matrix) : matrix := map (fun t => column t m) (seq 0 (ncols m)).

(** [v[::step]] for [step >= 1] *)
Fixpoint stride_aux (step skip : nat) (v : vec) : vec :=
  match v with
  | [] => []
  | x :: tl =>
      match skip with
      | O => x :: stride_aux step (step - 1) tl
      | S k => stride_aux step k tl
      end
  end.
Definition stride (step : nat) (v : vec) : vec := stride_aux step 0 v.

(** [v[a:b]] for [0 <= a] *)
Definition slice {A} (a b : nat) (v : list A) : list A := firstn (b - a) (skipn a v).

(** ** fastdtw *)

Class FastDTW : Type := {
  (** [fastdtw(x, y, dist=euclidean)[0]] on two time-major sequences *)
  fastdtw_distance : matrix -> matrix -> result float
}.

(** ** The similarity engine *)

Section Similarity.
Context {NP : Numpy} {DTW : FastDTW}.
Local Open Scope py_scope.

(** [np.dot(vector1, vector2)]: shapes that do not agree raise. *)
Definition np_dot (a b : vec) : M float :=
  tick call_np_dot ;;;
  if Nat.eqb (length a) (length b) then ret (np_inner a b) else raise ValueError.

Definition fastdtw (x y : matrix) : M float :=
  tick call_fastdtw ;;; lift (fastdtw_distance x y).

(** The body of the [try] of [calculate_similarity], up to [dtw_sim].  After
    the transposition [seq1_subset.shape[0]] is the number of frames kept and
    [seq1_subset.shape[1]] the number of rows of [sequence1].  [fastdtw]
    returns the distance as a Python float, so a zero divisor raises. *)
Definition dtw_alignment (sequence1 sequence2 : matrix) : M float :=
  n1 <- lift (shape1 sequence1) ;;
  n2 <- lift (shape1 sequence2) ;;
  let step := Nat.max 1 (Nat.min n1 n2 / 100) in
  let seq1_subset := transpose (map (stride step) sequence1) in
  let seq2_subset := transpose (map (stride step) sequence2) in
  distance <- fastdtw seq1_subset seq2_subset ;;
  let max_len := Nat.max (length seq1_subset) (length seq2_subset) in
  q <- lift (py_truediv distance (max_len * length sequence1)) ;;
  let normalized_dist := (1 - q)%float in
  ret (py_max 0 normalized_dist).

Definition is_none {A} (o : option A) : bool :=
  match o with
  | None => true
  | Some _ => false
  end.

Definition calculate_similarity (vector1 vector2 : vec) (method : string)
  (sequence1 sequence2 : option matrix) : M float :=
  cosine_sim <- np_dot vector1 vector2 ;;
  if (method =? "cosine")%string || is_none sequence1 || is_none sequence2 then ret cosine_sim
  else
    match sequence1, sequence2 with
    | Some s1, Some s2 =>
        if (method =? "dtw")%string || (method =? "combined")%string then
          try_except
            (dtw_sim <- dtw_alignment s1 s2 ;;
             if (method =? "dtw")%string then ret dtw_sim
             else ret (0.4 * cosine_sim + 0.6 * dtw_sim)%float)
            (fun _ => ret cosine_sim)
        else ret cosine_sim
    | _, _ => ret cosine_sim
    end.

(** [sim_matrix[i, j]] of [compare_segments] *)
Definition segment_cosine (ref_seg q_seg : vec) : M float :=
  np_dot (map (fun x => x / np_linalg_norm ref_seg)%float ref_seg)
         (map (fun x => x / np_linalg_norm q_seg)%float q_seg).

(** The inner loop over [i]: the unused reference with the highest score. *)
Definition best_match (sim_matrix : matrix) (used_indices : list Z) (j : nat) : float * Z :=
  fold_left
    (fun best i =>
       let s := nth j (nth i sim_matrix []) 0%float in
       if negb (existsb (Z.eqb (Z.of_nat i)) used_indices) && (fst best <? s)%float
       then (s, Z.of_nat i) else best)
    (seq 0 (length sim_matrix)) ((-1)%float, (-1)%Z).

(** The outer loop over [j]; the state is [(used_indices, similarities)]. *)
Definition greedy_matches (sim_matrix : matrix) (n_query : nat) : list Z * list float :=
  fold_left
    (fun st j =>
       let '(best_sim, best_idx) := best_match sim_matrix (fst st) j in
       if (0 <=? best_idx)%Z then (best_idx :: fst st, snd st ++ [best_sim]) else st)
    (seq 0 n_query) ([], []).

Definition compare_segments (segments1 segments2 : list vec) : M float :=
  tick call_compare_segments ;;;
  match segments1, segments2 with
  | [], _ | _, [] => ret 0%float
  | _, _ =>
      let '(reference, query) :=
        if Nat.leb (length segments2) (length segments1)
        then (segments1, segments2) else (segments2, segments1) in
      sim_matrix <- mapM (fun ref_seg => mapM (fun q_seg => segment_cosine ref_seg q_seg) query)
                         reference ;;
      let similarities := snd (greedy_matches sim_matrix (length query)) in
      match similarities with
      | [] => ret 0%float
      | _ => ret (np_mean similarities)
      end
  end.

(** A sample dictionary as [two_stage_matcher] reads it; [segments] is read
    with [.get], so the key may be missing. *)
Record sample : Type := {
  feature_vector : vec;
  sequence_features : matrix;
  segments : option (list vec)
}.

(** The result dictionary; a key that is absent or [None] is [None]. *)
Record match_result : Type := {
  similarity : float;
  cosine_similarity : option float;
  dtw_similarity : option float;
  segment_similarity : option float;
  method : string;
  stage : Z
}.

(** truth value of [sample.get('segments')] *)
Definition truthy (o : option (list vec)) : bool :=
  match o with
  | Some (_ :: _) => true
  | _ => false
  end.

Definition get_segments (s : sample) : list vec :=
  match segments s with
  | Some l => l
  | None => []
  end.

Definition two_stage_matcher (sample1 sample2 : sample) : M match_result :=
  let vector1 := feature_vector sample1 in
  let vector2 := feature_vector sample2 in
  cosine_sim <- calculate_similarity vector1 vector2 "cosine" None None ;;
  if (cosine_sim <? 0.5)%float then
    ret {| similarity := cosine_sim; cosine_similarity := None; dtw_similarity := None;
           segment_similarity := None; method := "cosine_only"; stage := 1 |}
  else
    let sequence1 := sequence_features sample1 in
    let sequence2 := sequence_features sample2 in
    combined_sim <- calculate_similarity vector1 vector2 "combined"
                      (Some sequence1) (Some sequence2) ;;
    sims <- (if truthy (segments sample1) && truthy (segments sample2) then
               segment_sim <- compare_segments (get_segments sample1) (get_segments sample2) ;;
               ret (segment_sim, (0.3 * combined_sim + 0.7 * segment_sim)%float)
             else ret (0%float, combined_sim)) ;;
    let '(segment_sim, final_sim) := sims in
    ret {| similarity := final_sim;
           cosine_similarity := Some cosine_sim;
           dtw_similarity := Some combined_sim;
           segment_similarity := if (0 <? segment_sim)%float then Some segment_sim else None;
           method := "full";
           stage := if (0 <? segment_sim)%float then 3 else 2 |}.

End Similarity.

(** ** librosa and the feature extractors *)

Definition signal := vec.

(** [int(x)] of Python for a finite float: truncation towards zero. *)
Definition py_int (x : float) : Z :=
  match Prim2SF x with
  | S754_finite s m e =>
      let v := if (0 <=? e)%Z then (Zpos m * 2 ^ e)%Z else Z.shiftr (Zpos m) (- e) in
      if s then (- v)%Z else v
  | _ => 0%Z
  end.

(** [range(0, stop, step)] for [step >= 1] *)
Definition py_range (stop step : Z) : list Z :=
  map (fun k => (Z.of_nat k * step)%Z) (seq 0 (Z.to_nat ((stop + step - 1) / step))).

Class Librosa : Type := {
  (** the payload written to a temporary file with the given suffix and read
      back by [librosa.load(temp_filename, sr=22050)] *)
  librosa_load : string -> string -> result signal;
  (** [librosa.effects.split(y, top_db=30)]: the non-silent intervals *)
  librosa_effects_split : signal -> list (Z * Z);
  librosa_effects_preemphasis : signal -> signal;
  (** [librosa.feature.mfcc(y=y, sr=sr, n_mfcc=n)] *)
  librosa_feature_mfcc : signal -> Z -> nat -> matrix;
  librosa_feature_chroma_stft : signal -> Z -> matrix;
  (** [librosa.feature.melspectrogram(y=y, sr=sr, n_mels=n)] *)
  librosa_feature_melspectrogram : signal -> Z -> nat -> matrix;
  librosa_feature_tempogram : signal -> Z -> matrix;
  (** [librosa.core.piptrack(y=y, sr=sr)]: pitches and magnitudes, two arrays
      of one shape *)
  librosa_core_piptrack : signal -> Z -> matrix * matrix;
  (** [librosa.feature.rms(y=y, hop_length=h)[0]], a float32 array *)
  librosa_feature_rms : signal -> Z -> vec;
  (** the body of the [try] of [extract_formants] up to [freqs]: the Hamming
      window, [librosa.lpc], the roots inside the unit circle, their angles as
      frequencies, sorted *)
  lpc_frequencies : vec -> Z -> Z -> result vec
}.

(** The shapes librosa documents for its results; pre-emphasis is a filter and
    keeps the length of the buffer.  The interface takes every call of
    librosa as returning; [librosa.effects.preemphasis] itself raises on a
    buffer of fewer than two samples, so what is proved from these laws is
    about the buffers on which librosa returns. *)
Class LibrosaLaws {LR : Librosa} : Prop := {
  mfcc_rows : forall y sr n, length (librosa_feature_mfcc y sr n) = n;
  chroma_rows : forall y sr, length (librosa_feature_chroma_stft y sr) = 12%nat;
  melspectrogram_rows : forall y sr n, length (librosa_feature_melspectrogram y sr n) = n;
  tempogram_rows : forall y sr, (20 <= length (librosa_feature_tempogram y sr))%nat;
  rms_frames : forall y h, librosa_feature_rms y h <> [];
  preemphasis_length : forall y, length (librosa_effects_preemphasis y) = length y
}.

Section Features.
Context {NP : Numpy} {LR : Librosa}.

(** [np.mean(m, axis=1)] and [np.std(m, axis=1)] *)
Definition mean_axis1 (m : matrix) : vec := map np_mean m.
Definition std_axis1 (m : matrix) : vec := map np_std m.

Definition apply_voice_normalization (y : signal) (sr : Z) : signal :=
  let y_preemph := librosa_effects_preemphasis y in
  let y_norm := map (fun x => x - np_mean y_preemph) y_preemph in
  if 0 <? np_std y_preemph then map (fun x => x / np_std y_preemph) y_norm else y_norm.

(** The loop of [segment_audio]: [segments] grows by [append]. *)
Definition segment_audio (y : signal) (sr : Z) : list vec :=
  let intervals := librosa_effects_split y in
  let min_length := of_Z sr * 0.5 in
  fold_left
    (fun segments iv =>
       let '(start, end_) := iv in
       if min_length <? of_Z (end_ - start) then
         let segment := slice (Z.to_nat start) (Z.to_nat end_) y in
         let mfccs := librosa_feature_mfcc segment sr 13 in
         segments ++ [mean_axis1 mfccs]
       else segments)
    intervals [].

Definition extract_pitch_contour (y : signal) (sr : Z) : vec :=
  let '(pitches, magnitudes) := librosa_core_piptrack y sr in
  let pitch_contour :=
    map (fun t =>
           let index := argmax (column t magnitudes) in
           nth t (nth index pitches []) 0)
        (seq 0 (ncols pitches)) in
  let pitch_contour := map (fun p => if p <=? 0 then 0 else p) pitch_contour in
  if Nat.eqb (length pitch_contour) 0 || forallb (fun p => p =? 0) pitch_contour
  then [0] else pitch_contour.

Definition extract_formants (y : signal) (sr : Z) (n_formants : nat) : matrix :=
  let y_preemph := librosa_effects_preemphasis y in
  let frame_length := py_int (of_Z sr * 0.025) in
  let hop_length := py_int (of_Z sr * 0.01) in
  let n_lpc := (2 + Z.of_nat n_formants * 2)%Z in
  let frames := py_range (Z.of_nat (length y_preemph) - frame_length) hop_length in
  let freqs_of frame :=
    let frame_data := slice (Z.to_nat frame) (Z.to_nat (frame + frame_length)) y_preemph in
    match lpc_frequencies frame_data n_lpc sr with
    | Ok freqs => freqs
    | Raise _ => []
    end in
  map (fun j => map (fun frame => nth j (freqs_of frame) 0) frames) (seq 0 n_formants).

(** The run lengths of the pause frames; the state is
    [(pause_lengths, current_pause)]. *)
Definition pause_runs (is_pause : list bool) : list nat :=
  let '(pause_lengths, current_pause) :=
    fold_left
      (fun (st : list nat * nat) (b : bool) =>
         let '(pause_lengths, current_pause) := st in
         if b then (pause_lengths, S current_pause)
         else if Nat.ltb 0 current_pause then (pause_lengths ++ [current_pause], 0%nat)
         else (pause_lengths, current_pause))
      is_pause ([], 0%nat) in
  if Nat.ltb 0 current_pause then pause_lengths ++ [current_pause] else pause_lengths.

(** [0.05 * np.max(rms)] as the comparison [rms < threshold] uses it.  [rms]
    is a float32 array and the comparison is a float32 comparison: NumPy 2
    multiplies in float32 (the Python float [0.05] adapts to the float32
    scalar), NumPy 1 multiplies in float64 and casts the threshold to float32
    when it meets the float32 array. *)
Definition pause_threshold (rms_max : float) : float :=
  if np_weak_scalars then float32_of (float32_of 0.05 * rms_max)
  else float32_of (0.05 * rms_max).

Definition extract_pause_patterns (y : signal) (sr : Z) : result vec :=
  let hop_length := py_int (of_Z sr * 0.01) in
  let rms := librosa_feature_rms y hop_length in
  rbind (np_max rms) (fun rms_max =>
  let threshold := pause_threshold rms_max in
  let is_pause := map (fun e => e <? threshold) rms in
  let pause_lengths := pause_runs is_pause in
  match pause_lengths with
  | [] => Ok [0; 0; 0; 0]
  | _ =>
      Ok [ of_nat (length pause_lengths);
           np_mean (map of_nat pause_lengths);
           (if Nat.ltb 1 (length pause_lengths) then np_std (map of_nat pause_lengths) else 0);
           of_nat (list_max pause_lengths) ]
  end).

(** The [np.concatenate] of [process_audio]: the raw feature vector. *)
Definition raw_feature_vector (mfccs chroma mel_spec tempo : matrix) (pitch_contour : vec)
  (formants : matrix) (pause_patterns : vec) : vec :=
  mean_axis1 mfccs
  ++ std_axis1 mfccs
  ++ mean_axis1 chroma
  ++ firstn 20 (mean_axis1 mel_spec)
  ++ firstn 20 (mean_axis1 tempo)
  ++ [np_mean pitch_contour]
  ++ [np_std pitch_contour]
  ++ mean_axis1 formants
  ++ [np_mean pause_patterns].

(** [feature_vector / np.linalg.norm(feature_vector)] *)
Definition normalize (feature_vector : vec) : vec :=
  map (fun x => x / np_linalg_norm feature_vector) feature_vector.

(** The entries of the dictionary [process_audio] returns that the matcher and
    the ranking read, with the raw extractor outputs they are computed from. *)
Record features : Type := {
  out_feature_vector : vec;
  out_segments : list vec;
  out_pitch_contour : vec;
  out_formants : matrix;
  out_pause_patterns : vec;
  out_vector_dimension : nat
}.

Definition sr_load : Z := 22050.

(** The raw feature vector of a decoded buffer, as [process_audio] builds it. *)
Definition extract_raw (y : signal) (sr : Z) : result (vec * features) :=
  let y_normalized := apply_voice_normalization y sr in
  let mfccs := librosa_feature_mfcc y_normalized sr 20 in
  let chroma := librosa_feature_chroma_stft y_normalized sr in
  let mel_spec := librosa_feature_melspectrogram y_normalized sr 128 in
  let tempo := librosa_feature_tempogram y_normalized sr in
  let pitch_contour := extract_pitch_contour y_normalized sr in
  let formants := extract_formants y_normalized sr 3 in
  rbind (extract_pause_patterns y_normalized sr) (fun pause_patterns =>
  let feature_vector :=
    raw_feature_vector mfccs chroma mel_spec tempo pitch_contour formants pause_patterns in
  let normalized_vector := normalize feature_vector in
  Ok (feature_vector,
      {| out_feature_vector := normalized_vector;
         out_segments := [];
         out_pitch_contour := pitch_contour;
         out_formants := formants;
         out_pause_patterns := pause_patterns;
         out_vector_dimension := length normalized_vector |})).

(** The suffix of the temporary file: wav for the two wav types, mp3 for
    every other type. *)
Definition file_extension (audio_type : string) : string :=
  if (audio_type =? "audio/wav")%string || (audio_type =? "audio/wave")%string
  then ".wav"%string else ".mp3"%string.

Definition process_audio (audio_base64 audio_type : string) (segment : bool) : result features :=
  rbind (librosa_load audio_base64 (file_extension audio_type)) (fun y =>
  let sr := sr_load in
  let segments := if segment then segment_audio y sr else [] in
  rbind (extract_raw y sr) (fun rf =>
  let f := snd rf in
  Ok {| out_feature_vector := out_feature_vector f;
        out_segments := segments;
        out_pitch_contour := out_pitch_contour f;
        out_formants := out_formants f;
        out_pause_patterns := out_pause_patterns f;
        out_vector_dimension := out_vector_dimension f |})).

End Features.

(** ** Ranking: the loop of [handler.do_POST] *)

Class Random : Type := {
  (** the [n]-th value drawn by [np.random.uniform(low, high)] in a request *)
  np_random_uniform : nat -> float -> float -> float
}.

(** A row of the [reciters] table as the handler selects it. *)
Record reciter : Type := {
  id : Z;
  name : string;
  style : string;
  stored_feature_vector : vec
}.

Record match_entry : Type := {
  match_id : Z;
  match_name : string;
  match_style : string;
  similarity_score : float;
  aspect_scores : list (string * float)
}.

Inductive response : Type :=
| send_success (matches : list match_entry) (vector_dimension : nat)
| send_error (error_message : string).

Definition aspect_names : list string :=
  ["intonation"; "pace"; "melody"; "strength"; "articulation"; "fluency"; "rhythm"]%string.

(** [matches.sort(key=lambda x: x['similarity_score'], reverse=True)]: a stable
    sort, descending; equal scores keep their order. *)
Fixpoint insert_desc (x : match_entry) (l : list match_entry) : list match_entry :=
  match l with
  | [] => [x]
  | y :: tl =>
      if similarity_score x <? similarity_score y then y :: insert_desc x tl
      else x :: y :: tl
  end.
Definition sort_desc (l : list match_entry) : list match_entry := fold_right insert_desc [] l.

Section Ranking.
Context {NP : Numpy} {DTW : FastDTW} {LR : Librosa} {RNG : Random}.
Local Open Scope py_scope.

(** [min(1.0, max(0.0, similarity * np.random.uniform(0.9, 1.1)))] for each
    aspect, from draw [n] on *)
Definition make_aspect_scores (similarity : float) (n : nat) : list (string * float) :=
  map (fun p =>
         (snd p,
          py_min 1 (py_max 0 (similarity * np_random_uniform (n + fst p) 0.9 1.1))%float))
      (combine (seq 0 7) aspect_names).

(** The [for reciter in reciters] loop; [draws] counts the random draws made. *)
Fixpoint match_loop (query : vec) (reciters : list reciter) (draws : nat)
  (matches : list match_entry) : M (list match_entry) :=
  match reciters with
  | [] => ret matches
  | r :: rest =>
      let reciter_vector := stored_feature_vector r in
      similarity <- calculate_similarity query reciter_vector "combined" None None ;;
      let scores := make_aspect_scores similarity draws in
      let matches :=
        if (0.4 <? similarity)%float then
          matches ++ [ {| match_id := id r; match_name := name r; match_style := style r;
                          similarity_score := similarity; aspect_scores := scores |} ]
        else matches in
      match_loop query rest (draws + 7) matches
  end.

(** Lines 43 to 76 of the handler: score, filter, sort, keep five. *)
Definition rank_reciters (query : vec) (reciters : list reciter) : M (list match_entry) :=
  matches <- match_loop query reciters 0 [] ;;
  let matches := sort_desc matches in
  ret (firstn 5 matches).

Definition do_POST (audio_base64 : option string) (audio_type : string)
  (reciters : list reciter) : response :=
  match audio_base64 with
  | None | Some EmptyString => send_error "No audio data provided"
  | Some audio =>
      match process_audio audio audio_type true with
      | Raise _ => send_error "Error processing audio"
      | Ok processed_audio =>
          match rank_reciters (out_feature_vector processed_audio) reciters [] with
          | (Ok top_matches, _) =>
              send_success top_matches (out_vector_dimension processed_audio)
          | (Raise _, _) => send_error "Error processing audio"
          end
      end
  end.

End Ranking.

(** ** Executable reference instances, for running the code *)

Definition euclidean (a b : vec) : float :=
  PrimFloat.sqrt (fold_left (fun acc p => acc + (fst p - snd p) * (fst p - snd p)) (combine a b) 0).

(** One row of the dynamic-time-warping table. *)
Fixpoint dtw_row (x : vec) (ys : matrix) (prev : vec) (left diag : float) : vec :=
  match ys, prev with
  | y :: ys', up :: prev' =>
      let c := euclidean x y + py_min up (py_min left diag) in
      c :: dtw_row x ys' prev' c up
  | _, _ => []
  end.

Fixpoint dtw_rows (xs ys : matrix) (prev : vec) (diag : float) : vec :=
  match xs with
  | [] => prev
  | x :: xs' => dtw_rows xs' ys (dtw_row x ys prev infinity diag) infinity
  end.

(** Exact dynamic time warping under the Euclidean frame cost, which
    [fastdtw] approximates (and equals on short sequences). *)
Definition exact_dtw : FastDTW :=
  {| fastdtw_distance := fun x y =>
       match x, y with
       | [], _ | _, [] => Raise IndexError
       | _, _ => Ok (last (dtw_rows x y (repeat infinity (length y)) 0) infinity)
       end |}.

(** A stand-in for librosa with the documented shapes: one analysis frame per
    512 samples, the first cepstral coefficient equal to [cepstral_level] and
    every other spectral feature equal to [spectral_fill]; the decoded
    buffer, the intervals of the silence detector, the pitch track, the energy
    envelope and the outcome of the linear prediction are given. *)
Record scenario : Type := {
  decoded : signal;
  intervals : list (Z * Z);
  pitch_track : matrix * matrix;
  rms : vec;
  cepstral_level : float;
  spectral_fill : float;
  frame_frequencies : result vec
}.

Definition n_frames (y : signal) : nat := (1 + length y / 512)%nat.

Definition toy_librosa (sc : scenario) : Librosa :=
  {| librosa_load := fun _ _ => Ok (decoded sc);
     librosa_effects_split := fun _ => intervals sc;
     librosa_effects_preemphasis := fun y => y;
     librosa_feature_mfcc :=
       fun y _ n =>
         match n with
         | O => []
         | S k => repeat (cepstral_level sc) (n_frames y)
                  :: repeat (repeat (spectral_fill sc) (n_frames y)) k
         end;
     librosa_feature_chroma_stft := fun y _ => repeat (repeat (spectral_fill sc) (n_frames y)) 12;
     librosa_feature_melspectrogram :=
       fun y _ n => repeat (repeat (spectral_fill sc) (n_frames y)) n;
     librosa_feature_tempogram := fun y _ => repeat (repeat (spectral_fill sc) (n_frames y)) 384;
     librosa_core_piptrack := fun _ _ => pitch_track sc;
     librosa_feature_rms := fun _ _ => rms sc;
     lpc_frequencies := fun _ _ _ => frame_frequencies sc |}.

(** A tenth of a second of digital silence, as librosa sees it: the silence
    detector measures every frame against the peak of the buffer and reports
    the whole buffer as one interval; the mel spectrum is zero, that is
    -100 dB in each of the 128 bands, so the first cepstral coefficient is
    [-100 * sqrt(128)] and the others are zero; the energy is zero in each of
    the 11 frames and the linear prediction fails. *)
Definition silence : scenario :=
  {| decoded := repeat 0 2205;
     intervals := [(0, 2205)%Z];
     pitch_track := (repeat (repeat 0 5) 4, repeat (repeat 0 5) 4);
     rms := repeat 0 11;
     cepstral_level := -1131.3708498984761;
     spectral_fill := 0;
     frame_frequencies := Raise ValueError |}.

(** One sample more than half a second of digital silence. *)
Definition long_silence : scenario :=
  {| decoded := repeat 0 11026;
     intervals := [(0, 11026)%Z];
     pitch_track := (repeat (repeat 0 22) 4, repeat (repeat 0 22) 4);
     rms := repeat 0 51;
     cepstral_level := -1131.3708498984761;
     spectral_fill := 0;
     frame_frequencies := Raise ValueError |}.

(** An envelope with a frame at the float32 threshold: [0.05 * 7] is
    [0.35000000000000003] as a float64 and [0.3499999940395355] as a float32,
    which is the energy of the middle frame. *)
Definition borderline : scenario :=
  {| decoded := repeat 1 600;
     intervals := [(0, 600)%Z];
     pitch_track := ([[0; 0; 0]; [220; 0; 230]], [[0; 1; 0]; [1; 0; 1]]);
     rms := [7; 0.3499999940395355; 7];
     cepstral_level := 1;
     spectral_fill := 1;
     frame_frequencies := Ok [500; 1500; 2500] |}.

(** Three analysis frames, the second with a NaN as pitch estimate. *)
Definition nan_estimate : scenario :=
  {| decoded := repeat 1 1100;
     intervals := [(0, 1100)%Z];
     pitch_track := ([[50; nan; -3]], [[1; 1; 1]]);
     rms := [1; 1; 1];
     cepstral_level := 1;
     spectral_fill := 1;
     frame_frequencies := Ok [500; 1500; 2500] |}.

(** A clip of 100 samples, shorter than one 25 ms formant frame. *)
Definition short_clip : scenario :=
  {| decoded := repeat 1 100;
     intervals := [(0, 100)%Z];
     pitch_track := ([[0]; [220]], [[0]; [1]]);
     rms := [1];
     cepstral_level := 1;
     spectral_fill := 1;
     frame_frequencies := Ok [500; 1500; 2500] |}.

(** Half a second, loud from the first sample to the last. *)
Definition half_second : scenario :=
  {| decoded := repeat 1 11025;
     intervals := [(0, 11025)%Z];
     pitch_track := ([[0; 0; 0]; [220; 0; 230]], [[0; 1; 0]; [1; 0; 1]]);
     rms := [1; 1; 1; 1];
     cepstral_level := 1;
     spectral_fill := 1;
     frame_frequencies := Ok [500; 1500; 2500] |}.

(** A clip whose energy envelope has one pause of two frames. *)
Definition one_pause : scenario :=
  {| decoded := repeat 1 1100;
     intervals := [(0, 1100)%Z];
     pitch_track := ([[0; 0; 0]; [220; 0; 230]], [[0; 1; 0]; [1; 0; 1]]);
     rms := [1; 0; 0; 1];
     cepstral_level := 1;
     spectral_fill := 1;
     frame_frequencies := Ok [500; 1500; 2500] |}.

(** Three analysis frames without any pitch. *)
Definition unvoiced : scenario :=
  {| decoded := repeat 1 1100;
     intervals := [(0, 1100)%Z];
     pitch_track := ([[0; 0; 0]; [0; 0; 0]], [[0; 1; 0]; [1; 0; 1]]);
     rms := [1; 1; 1];
     cepstral_level := 1;
     spectral_fill := 1;
     frame_frequencies := Ok [500; 1500; 2500] |}.

Definition fixed_random : Random := {| np_random_uniform := fun _ _ _ => 1 |}.

(** ** The sequence matrix of [process_audio] *)

Class NumpySum : Type := {
  (** [np.sum] of a 1-D array: the reduction of [np.sum(m, axis=0)] on one
      column *)
  np_sum : vec -> float
}.

Definition seq_numpy_sum : NumpySum := {| np_sum := seq_sum |}.

(** [np.zeros((rows, cols))] *)
Definition zeros (rows cols : nat) : matrix := repeat (repeat 0 cols) rows.

(** [row[:bound] = values] on a row of a float array: the target is the
    slice of [min bound (len row)] entries, a value array of that length is
    copied, one of length 1 is broadcast, any other raises. *)
Definition assign_prefix (bound : nat) (values row : vec) : result vec :=
  let k := Nat.min bound (length row) in
  if Nat.eqb (length values) k then Ok (values ++ skipn k row)
  else if Nat.eqb (length values) 1 then Ok (repeat (hd 0 values) k ++ skipn k row)
  else Raise ValueError.

(** [m[i, ...] = ...]: the update of row [i]; a row that does not exist raises. *)
Fixpoint update_row (i : nat) (f : vec -> result vec) (m : matrix) : result matrix :=
  match m, i with
  | [], _ => Raise IndexError
  | row :: tl, O => rbind (f row) (fun row' => Ok (row' :: tl))
  | row :: tl, S k => rbind (update_row k f tl) (fun tl' => Ok (row :: tl'))
  end.

(** [m[:len(values), :bound] = values], row by row. *)
Fixpoint assign_block (bound : nat) (values m : matrix) : result matrix :=
  match values, m with
  | [], _ => Ok m
  | v :: vs, row :: tl =>
      rbind (assign_prefix bound v row) (fun row' =>
      rbind (assign_block bound vs tl) (fun tl' => Ok (row' :: tl')))
  | _ :: _, [] => Raise ValueError
  end.

(** [np.diff(pitch, prepend=pitch[0])]: the first entry is [pitch[0] - pitch[0]]. *)
Fixpoint diff_from (previous : float) (pitch : vec) : vec :=
  match pitch with
  | [] => []
  | p :: tl => (p - previous) :: diff_from p tl
  end.
Definition diff_prepend (pitch : vec) : vec :=
  match pitch with
  | [] => []
  | p0 :: _ => diff_from p0 pitch
  end.

Section Sequence.
Context {NP : Numpy} {NS : NumpySum} {LR : Librosa}.

(** [np.mean(m, axis=0)] *)
Definition mean_axis0 (m : matrix) : vec :=
  map (fun t => np_mean (column t m)) (seq 0 (ncols m)).

(** [np.sqrt(np.sum(m**2, axis=0))] *)
Definition energy_envelope (m : matrix) : vec :=
  map (fun t => PrimFloat.sqrt (np_sum (map (fun x => x * x) (column t m)))) (seq 0 (ncols m)).

Definition create_sequence_features (mfccs chroma : matrix) (pitch : vec) : result matrix :=
  let sequence_length := Nat.min (ncols mfccs) (length pitch) in
  let sequence := zeros (length mfccs + 4) sequence_length in
  let rows := length sequence in
  rbind (assign_block (ncols mfccs) (map (firstn sequence_length) mfccs) sequence)
    (fun sequence =>
  let chroma_features := firstn sequence_length (mean_axis0 chroma) in
  rbind (if Nat.ltb 0 (length chroma_features)
         then update_row (rows - 4)
                (assign_prefix (length chroma_features) chroma_features) sequence
         else Ok sequence)
    (fun sequence =>
  rbind (if Nat.ltb 0 (length pitch)
         then update_row (rows - 3)
                (assign_prefix (Nat.min (length pitch) sequence_length)
                   (firstn sequence_length pitch)) sequence
         else Ok sequence)
    (fun sequence =>
  rbind (if Nat.ltb 1 (length pitch)
         then let pitch_diff := firstn sequence_length (diff_prepend pitch) in
              update_row (rows - 2)
                (assign_prefix (Nat.min (length pitch_diff) sequence_length) pitch_diff)
                sequence
         else Ok sequence)
    (fun sequence =>
  let energy := firstn sequence_length (energy_envelope mfccs) in
  update_row (rows - 1) (assign_prefix (length energy) energy) sequence)))).

(** The entry ['sequence_features'] of the dictionary [process_audio]
    returns, for a decoded buffer. *)
Definition sequence_features_of (y : signal) (sr : Z) : result matrix :=
  let y_normalized := apply_voice_normalization y sr in
  let mfccs := librosa_feature_mfcc y_normalized sr 20 in
  let chroma := librosa_feature_chroma_stft y_normalized sr in
  let pitch_contour := extract_pitch_contour y_normalized sr in
  create_sequence_features mfccs chroma pitch_contour.

End Sequence.

(** numpy arrays are rectangular: every row of a 2-D result has the length
    of the first. *)
Definition rectangular (m : matrix) : Prop := Forall (fun row => length row = ncols m) m.

Class LibrosaRectangular {LR : Librosa} : Prop := {
  mfcc_rectangular : forall y sr n, rectangular (librosa_feature_mfcc y sr n)
}.

(** ** The speaker classifier's features ([speaker_prediction/predictor.py]) *)

Class SpeakerAudio : Type := {
  (** [librosa.load(audio_path, sr=16000, mono=True)] *)
  load_16k : string -> result signal;
  (** [librosa.power_to_db(librosa.feature.melspectrogram(y=audio, sr=sr,
      n_mels=40, n_fft=512, hop_length=160), ref=np.max)] *)
  log_mel_spectrogram : signal -> result matrix
}.

Section Predictor.
Context {NP : Numpy} {SA : SpeakerAudio}.

(** [extract_features] of the predictor; an exception gives [None]. *)
Definition extract_features (audio_path : string) (max_length : nat) : option (list matrix) :=
  match rbind (load_16k audio_path) log_mel_spectrogram with
  | Raise _ => None
  | Ok mel_spec =>
      let mean := np_mean (concat mel_spec) in
      let std := np_std (concat mel_spec) in
      let mel_spec := map (map (fun x => (x - mean) / (std + 1e-8))) mel_spec in
      match shape1 mel_spec with
      | Raise _ => None
      | Ok n_time =>
          if Nat.ltb max_length n_time then
            let step := Nat.max 1 ((n_time - max_length) / 4) in
            Some (map (fun start =>
                         map (slice (Z.to_nat start) (Z.to_nat start + max_length)) mel_spec)
                      (py_range (Z.of_nat (n_time - max_length + 1)) (Z.of_nat step)))
          else
            let pad_width := (max_length - n_time)%nat in
            Some [map (fun row => row ++ repeat 0 pad_width) mel_spec]
      end
  end.

End Predictor.

(** ** Vocabulary of the statements *)

(** The Stage-1 score of two samples: the dot product of their fingerprints. *)
Definition stage1_cosine {NP : Numpy} (sample1 sample2 : sample) : float :=
  np_inner (feature_vector sample1) (feature_vector sample2).

(** The log when Stage 2 starts its alignment: [np.dot] has run twice. *)
Definition stage2_log (log : list call) : list call :=
  (log ++ [call_np_dot]) ++ [call_np_dot].

(** The outcome of the alignment of Stage 2 for two samples. *)
Definition stage2_alignment {NP : Numpy} {DTW : FastDTW} (sample1 sample2 : sample)
  (log : list call) : result float * list call :=
  dtw_alignment (sequence_features sample1) (sequence_features sample2) (stage2_log log).

(** The value [calculate_similarity] returns for ["combined"]. *)
Definition stage2_combined (cosine_sim : float) (alignment : result float) : float :=
  match alignment with
  | Ok dtw_sim => 0.4 * cosine_sim + 0.6 * dtw_sim
  | Raise _ => cosine_sim
  end.

(** The calls a run made, given the log before and after it. *)
Definition calls_since (before after : list call) : list call :=
  skipn (length before) after.

Definition both_have_segments (sample1 sample2 : sample) : bool :=
  truthy (segments sample1) && truthy (segments sample2).

(** The filter of the ranking: a score above 0.4. *)
Definition above_threshold (m : match_entry) : Prop := (0.4 <? similarity_score m) = true.
(** [a] may stand before [b]: [b] does not score higher. *)
Definition scores_before (a b : match_entry) : Prop :=
  (similarity_score b <=? similarity_score a) = true.
(** Each entry scores at least as high as the next one. *)
Definition descending (l : list match_entry) : Prop := Sorted scores_before l.

(** The lengths of the maximal runs of consecutive pause frames, in order;
    [current] is the length of the run that is open. *)
Fixpoint run_lengths_from (current : nat) (is_pause : list bool) : list nat :=
  match is_pause with
  | [] => if Nat.ltb 0 current then [current] else []
  | true :: tl => run_lengths_from (S current) tl
  | false :: tl =>
      if Nat.ltb 0 current then current :: run_lengths_from 0 tl
      else run_lengths_from 0 tl
  end.
Definition run_lengths (is_pause : list bool) : list nat := run_lengths_from 0 is_pause.

(** The four pause scalars: count, mean length, standard deviation of the
    lengths (0 with fewer than two pauses), longest pause (0 without pauses). *)
Definition pause_statistics {NP : Numpy} (pause_lengths : list nat) : vec :=
  [ of_nat (length pause_lengths);
    match pause_lengths with
    | [] => 0
    | _ => np_mean (map of_nat pause_lengths)
    end;
    (if Nat.ltb 1 (length pause_lengths) then np_std (map of_nat pause_lengths) else 0);
    of_nat (list_max pause_lengths) ].

(** The test of [segment_audio] on an interval: [end - start > sr * 0.5]. *)
Definition longer_than_half_second (sr : Z) (iv : Z * Z) : bool :=
  of_Z sr * 0.5 <? of_Z (snd iv - fst iv).

(** The descriptor [segment_audio] stores for an interval. *)
Definition segment_descriptor {NP : Numpy} {LR : Librosa} (y : signal) (sr : Z) (iv : Z * Z)
  : vec :=
  mean_axis1 (librosa_feature_mfcc (slice (Z.to_nat (fst iv)) (Z.to_nat (snd iv)) y) sr 13).

(** The pitch [extract_pitch_contour] selects in frame [t], and its clamping. *)
Definition selected_pitch (pitches magnitudes : matrix) (t : nat) : float :=
  nth t (nth (argmax (column t magnitudes)) pitches []) 0.
Definition clamp_pitch (p : float) : float := if p <=? 0 then 0 else p.

(** Sample pairs on which the code is run. *)
Definition sample_low_a : sample :=
  {| feature_vector := [0.6; 0.8]; sequence_features := [[1; 2]]; segments := None |}.
Definition sample_low_b : sample :=
  {| feature_vector := [0.8; -0.6]; sequence_features := [[1; 2]]; segments := None |}.
Definition sample_x : sample :=
  {| feature_vector := [1]; sequence_features := [[1]]; segments := Some [[1; 0]] |}.
Definition sample_y : sample :=
  {| feature_vector := [1]; sequence_features := [[1]]; segments := Some [[0; 1]] |}.
Definition sample_no_frames : sample :=
  {| feature_vector := [1]; sequence_features := []; segments := Some [[1; 0]] |}.
Definition sample_z : sample :=
  {| feature_vector := [1]; sequence_features := [[1]]; segments := Some [[2; 1]] |}.
Definition sample_plain : sample :=
  {| feature_vector := [1]; sequence_features := [[1]]; segments := Some [] |}.

(** Candidates of a ranking: nine stored fingerprints, two of them equal. *)
Definition candidate (i : Z) (v : vec) : reciter :=
  {| id := i; name := "reciter"; style := "Hafs"; stored_feature_vector := v |}.
Definition candidates : list reciter :=
  [ candidate 1 [0.5; 0]; candidate 2 [0.9; 0]; candidate 3 [0.4; 0];
    candidate 4 [0.9; 0]; candidate 5 [0.41; 0]; candidate 6 [1; 0];
    candidate 7 [0.8; 0]; candidate 8 [0.7; 0]; candidate 9 [0.3; 0] ].

(** One sample more than half a second, loud throughout. *)
Definition long_region : scenario :=
  {| decoded := repeat 1 11026;
     intervals := [(0, 11026)%Z];
     pitch_track := ([[0; 0; 0]; [220; 0; 230]], [[0; 1; 0]; [1; 0; 1]]);
     rms := [1; 1; 1; 1];
     cepstral_level := 1;
     spectral_fill := 1;
     frame_frequencies := Ok [500; 1500; 2500] |}.

(** ** Vocabulary of the further statements *)

(** A sequence as [calculate_similarity] hands it to [fastdtw]: every
    [step]-th frame, time first. *)
Definition subsampled (step : nat) (sequence : matrix) : matrix :=
  transpose (map (stride step) sequence).

(** The entry [sim_matrix[i, j]]. *)
Definition sim_entry (sim_matrix : matrix) (i j : nat) : float :=
  nth j (nth i sim_matrix []) 0.

(** The state of the inner loop of [compare_segments] after the references
    before [k]: nothing chosen and no unused reference above -1 so far, or
    the chosen reference is unused, scores above -1 and no unused reference
    so far scores higher. *)
Definition best_so_far (sim_matrix : matrix) (used_indices : list Z) (j k : nat)
  (best : float * Z) : Prop :=
  (best = ((-1)%float, (-1)%Z)
   /\ forall i, (i < k)%nat -> ~ In (Z.of_nat i) used_indices ->
                (-1 <? sim_entry sim_matrix i j) = false)
  \/ (exists i0, (i0 < k)%nat /\ snd best = Z.of_nat i0
        /\ ~ In (Z.of_nat i0) used_indices
        /\ fst best = sim_entry sim_matrix i0 j
        /\ (-1 <? fst best) = true
        /\ forall i, (i < k)%nat -> ~ In (Z.of_nat i) used_indices ->
                     PrimFloat.is_nan (sim_entry sim_matrix i j) = false ->
                     (sim_entry sim_matrix i j <=? fst best) = true).

(** What a result dictionary of [two_stage_matcher] may look like. *)
Definition cosine_only_result (r : match_result) : Prop :=
  method r = "cosine_only"%string /\ stage r = 1%Z
  /\ cosine_similarity r = None /\ dtw_similarity r = None /\ segment_similarity r = None
  /\ (similarity r <? 0.5) = true.
Definition full_result (r : match_result) : Prop :=
  method r = "full"%string
  /\ exists c combined,
       cosine_similarity r = Some c /\ (c <? 0.5) = false
       /\ dtw_similarity r = Some combined
       /\ ((stage r = 2%Z /\ segment_similarity r = None)
           \/ (stage r = 3%Z
               /\ exists sg, segment_similarity r = Some sg /\ (0 <? sg) = true
                             /\ similarity r = 0.3 * combined + 0.7 * sg)).

(** A score between 0 and 1. *)
Definition unit_interval (x : float) : Prop := (0 <=? x) = true /\ (x <=? 1) = true.

(** The candidates that pass the filter of the ranking, in their order. *)
Definition passing {NP : Numpy} (query : vec) (reciters : list reciter) : list reciter :=
  filter (fun r => 0.4 <? np_inner query (stored_feature_vector r)) reciters.

(** What a match entry shows of its candidate. *)
Definition entry_key (m : match_entry) : Z * string * string * float :=
  (match_id m, match_name m, match_style m, similarity_score m).
Definition candidate_key {NP : Numpy} (query : vec) (r : reciter)
  : Z * string * string * float :=
  (id r, name r, style r, np_inner query (stored_feature_vector r)).

(** Samples with fingerprints of different dimensions, and with segment
    descriptors of different dimensions. *)
Definition sample_short_vector : sample :=
  {| feature_vector := [1]; sequence_features := [[1]]; segments := None |}.
Definition sample_long_vector : sample :=
  {| feature_vector := [1; 0]; sequence_features := [[1]]; segments := None |}.
Definition sample_three_dim_segment : sample :=
  {| feature_vector := [1]; sequence_features := [[1]]; segments := Some [[1; 0; 0]] |}.
Definition sample_nan : sample :=
  {| feature_vector := [nan]; sequence_features := [[1]]; segments := None |}.

(** The number of pause frames of an envelope. *)
Definition pause_frames (is_pause : list bool) : nat :=
  length (filter (fun b : bool => b) is_pause).

(** The number of 25 ms frames [extract_formants] cuts at 22050 Hz from a
    buffer of [n] samples: frames of 551 samples every 220 samples, the last
    one starting before sample [n - 551]. *)
Definition formant_frames (n : nat) : nat :=
  Z.to_nat ((Z.of_nat n - 551 + 219) / 220).

(** The sequence matrix for [n] frames, row by row: the cepstral rows, the
    mean chroma (zero where the chroma has no frame), the pitch, the change
    of the pitch (zero for a contour of one element) and the energy. *)
Definition pad_to (n : nat) (v : vec) : vec := v ++ repeat 0 (n - length v).
Definition sequence_layout {NP : Numpy} {NS : NumpySum} (mfccs chroma : matrix) (pitch : vec)
  : matrix :=
  let n := Nat.min (ncols mfccs) (length pitch) in
  map (firstn n) mfccs
  ++ [ pad_to n (firstn n (mean_axis0 chroma));
       firstn n pitch;
       (if Nat.ltb 1 (length pitch) then firstn n (diff_prepend pitch) else repeat 0 n);
       firstn n (energy_envelope mfccs) ].

(** The pitch contour before the replacement of an all-zero contour: the
    selected pitch of every analysis frame, clamped. *)
Definition clamped_contour {LR : Librosa} (y : signal) (sr : Z) : vec :=
  map (fun t =>
         clamp_pitch (selected_pitch (fst (librosa_core_piptrack y sr))
                        (snd (librosa_core_piptrack y sr)) t))
      (seq 0 (ncols (fst (librosa_core_piptrack y sr)))).

(** The number of windows [extract_features] cuts from a spectrogram of
    [n_time] frames: one when it is not longer than [max_length], otherwise
    one per multiple of the step up to [n_time - max_length]. *)
Definition segment_count (n_time max_length : nat) : nat :=
  if Nat.ltb max_length n_time
  then ((n_time - max_length) / Nat.max 1 ((n_time - max_length) / 4) + 1)%nat
  else 1%nat.

(** A stand-in for the decoder and the spectrogram of the classifier: every
    path decodes, and the spectrogram is the given matrix. *)
Definition fixed_spectrogram (mel_spec : matrix) : SpeakerAudio :=
  {| load_16k := fun _ => Ok []; log_mel_spectrogram := fun _ => Ok mel_spec |}.

(** The score [compare_segments] gives a reference and a query segment: the
    dot product of the two descriptors, each divided by its norm. *)
Definition cosine_of {NP : Numpy} (ref_seg q_seg : vec) : float :=
  np_inner (map (fun x => x / np_linalg_norm ref_seg) ref_seg)
           (map (fun x => x / np_linalg_norm q_seg) q_seg).

(** The longer list is the reference, the first one when the lengths agree. *)
Definition reference_of (segments1 segments2 : list vec) : list vec :=
  if Nat.leb (length segments2) (length segments1) then segments1 else segments2.
Definition query_of (segments1 segments2 : list vec) : list vec :=
  if Nat.leb (length segments2) (length segments1) then segments2 else segments1.

(** [sim_matrix] of [compare_segments]: a row per reference segment. *)
Definition cosine_matrix {NP : Numpy} (reference query : list vec) : matrix :=
  map (fun ref_seg => map (cosine_of ref_seg) query) reference.

(** The scores of a list of pairs (reference index, query index). *)
Definition pair_scores {NP : Numpy} (reference query : list vec) (pairs : list (nat * nat))
  : list float :=
  map (fun p => cosine_of (nth (fst p) reference []) (nth (snd p) query [])) pairs.

(** A matching: no reference and no query segment occurs twice, and every
    index is one of its list. *)
Definition matching (n_reference n_query : nat) (pairs : list (nat * nat)) : Prop :=
  NoDup (map fst pairs) /\ NoDup (map snd pairs)
  /\ Forall (fun p => (fst p < n_reference)%nat /\ (snd p < n_query)%nat) pairs.

(** A matrix of [rows] rows of [cols] entries each. *)
Definition has_shape (rows cols : nat) (m : matrix) : Prop :=
  length m = rows /\ Forall (fun row => length row = cols) m.

(** * Facts about binary64 comparisons *)

Section FloatFacts.

Lemma SFcompare_refl (f : spec_float) :
  f <> S754_nan -> SFcompare f f = Some Eq.
Proof.
  destruct f as [s | s | | s m e]; simpl; intros Hn; try congruence.
  - destruct s; reflexivity.
  - destruct s; rewrite Z.compare_refl, Pos.compare_cont_refl; reflexivity.
Qed.

Lemma SFcompare_antisym (f g : spec_float) :
  SFcompare g f = option_map CompOpp (SFcompare f g).
Proof.
  destruct f as [sf | sf | | sf mf ef], g as [sg | sg | | sg mg eg]; simpl;
    try reflexivity;
    try (destruct sf; reflexivity);
    try (destruct sg; reflexivity);
    try (destruct sf, sg; reflexivity).
  destruct sf, sg; simpl; try reflexivity;
    rewrite (Z.compare_antisym ef eg);
    destruct (ef ?= eg)%Z; simpl; try reflexivity;
    repeat (rewrite Pos.compare_cont_antisym; simpl); reflexivity.
Qed.

Lemma is_nan_Prim2SF (x : float) :
  PrimFloat.is_nan x = false <-> Prim2SF x <> S754_nan.
Proof.
  unfold PrimFloat.is_nan. rewrite FloatAxioms.eqb_spec. unfold SFeqb. split.
  - intros H E. rewrite E in H. discriminate.
  - intros H. rewrite (SFcompare_refl _ H). reflexivity.
Qed.

Lemma ltb_not_nan_r (a x : float) : (a <? x) = true -> PrimFloat.is_nan x = false.
Proof.
  rewrite FloatAxioms.ltb_spec. unfold SFltb. intros H. apply is_nan_Prim2SF. intros E.
  rewrite E in H. destruct (Prim2SF a); discriminate.
Qed.

Lemma SFcompare_some (f g : spec_float) :
  f <> S754_nan -> g <> S754_nan -> exists c, SFcompare f g = Some c.
Proof.
  intros Hf Hg.
  destruct f as [sf | sf | | sf mf ef], g as [sg | sg | | sg mg eg]; simpl;
    try congruence; eauto.
Qed.

(** On numbers, [not (x < y)] is [y <= x]. *)
Lemma ltb_false_leb (x y : float) :
  PrimFloat.is_nan x = false -> PrimFloat.is_nan y = false ->
  (x <? y) = false -> (y <=? x) = true.
Proof.
  rewrite FloatAxioms.ltb_spec, FloatAxioms.leb_spec. unfold SFltb, SFleb.
  intros Hx%is_nan_Prim2SF Hy%is_nan_Prim2SF.
  rewrite (SFcompare_antisym (Prim2SF x) (Prim2SF y)).
  destruct (SFcompare_some _ _ Hx Hy) as [c ->]. destruct c; simpl; congruence.
Qed.


Lemma ltb_leb (x y : float) : (x <? y) = true -> (x <=? y) = true.
Proof.
  rewrite FloatAxioms.ltb_spec, FloatAxioms.leb_spec. unfold SFltb, SFleb.
  destruct (SFcompare (Prim2SF x) (Prim2SF y)) as [[]|]; congruence.
Qed.

(** [a <= c] excludes [c < a]. *)
Lemma leb_not_ltb (a c : float) : (a <=? c) = true -> (c <? a) = false.
Proof.
  rewrite FloatAxioms.ltb_spec, FloatAxioms.leb_spec. unfold SFltb, SFleb.
  rewrite (SFcompare_antisym (Prim2SF a) (Prim2SF c)).
  destruct (SFcompare (Prim2SF a) (Prim2SF c)) as [[]|]; simpl; congruence.
Qed.

(** The floats equal to zero are [0] and [-0]. *)
Lemma is_zero_cases (x : float) :
  PrimFloat.is_zero x = true -> x = 0 \/ x = (-0)%float.
Proof.
  unfold PrimFloat.is_zero. rewrite FloatAxioms.eqb_spec. unfold SFeqb.
  change (Prim2SF zero) with (S754_zero false).
  intros H. rewrite <- (SF2Prim_Prim2SF x).
  destruct (Prim2SF x) as [[] | [] | | [] m e]; simpl in H; try discriminate;
    [right | left]; reflexivity.
Qed.

Lemma zero_div_zero (x : float) : PrimFloat.is_zero x = true -> x / 0 = nan.
Proof.
  intros [-> | ->]%is_zero_cases; reflexivity.
Qed.

Lemma is_nan_eq (x : float) : PrimFloat.is_nan x = true -> x = nan.
Proof.
  intros H. rewrite <- (SF2Prim_Prim2SF x).
  destruct (Prim2SF x) eqn:E; try reflexivity;
    assert (Hn : PrimFloat.is_nan x = false)
      by (apply is_nan_Prim2SF; rewrite E; discriminate);
    congruence.
Qed.

Lemma add_nan_r (x : float) : x + nan = nan.
Proof.
  apply Prim2SF_inj. rewrite FloatAxioms.add_spec. change (Prim2SF nan) with S754_nan.
  unfold SF64add, SFadd. destruct (Prim2SF x); reflexivity.
Qed.

Lemma add_nan_l (x : float) : nan + x = nan.
Proof.
  apply Prim2SF_inj. rewrite FloatAxioms.add_spec. change (Prim2SF nan) with S754_nan.
  reflexivity.
Qed.

Lemma div_nan_r (x : float) : x / nan = nan.
Proof.
  apply Prim2SF_inj. rewrite FloatAxioms.div_spec. change (Prim2SF nan) with S754_nan.
  unfold SF64div, SFdiv. destruct (Prim2SF x); reflexivity.
Qed.

End FloatFacts.

(** * The cascade *)

Section CascadeFacts.
Context {NP : Numpy} {DTW : FastDTW}.

Lemma np_dot_run (a b : vec) (log : list call) :
  length a = length b ->
  np_dot a b log = (Ok (np_inner a b), log ++ [call_np_dot]).
Proof.
  intros E. unfold np_dot, bind, tick, ret, raise.
  rewrite E, Nat.eqb_refl. reflexivity.
Qed.

(** Without sequences every method returns the dot product. *)
Lemma calculate_similarity_cosine (a b : vec) (method : string) (log : list call) :
  length a = length b ->
  calculate_similarity a b method None None log = (Ok (np_inner a b), log ++ [call_np_dot]).
Proof.
  intros E. unfold calculate_similarity, bind. rewrite (np_dot_run _ _ _ E).
  rewrite orb_true_r. reflexivity.
Qed.

(** With sequences, ["combined"] blends the alignment score, and any
    exception of the alignment is caught. *)
Lemma calculate_similarity_combined (a b : vec) (s1 s2 : matrix) (log : list call) :
  length a = length b ->
  calculate_similarity a b "combined" (Some s1) (Some s2) log =
    (Ok (stage2_combined (np_inner a b) (fst (dtw_alignment s1 s2 (log ++ [call_np_dot])))),
     snd (dtw_alignment s1 s2 (log ++ [call_np_dot]))).
Proof.
  intros E. unfold calculate_similarity, bind. rewrite (np_dot_run _ _ _ E). simpl.
  unfold try_except, bind.
  destruct (dtw_alignment s1 s2 (log ++ [call_np_dot])) as [[d | e] l]; reflexivity.
Qed.

(** What [two_stage_matcher] returns once Stage 1 lets the pair through. *)
Lemma two_stage_matcher_full (sample1 sample2 : sample) (log : list call) :
  length (feature_vector sample1) = length (feature_vector sample2) ->
  (stage1_cosine sample1 sample2 <? 0.5) = false ->
  let c := stage1_cosine sample1 sample2 in
  let combined := stage2_combined c (fst (stage2_alignment sample1 sample2 log)) in
  let log2 := snd (stage2_alignment sample1 sample2 log) in
  two_stage_matcher sample1 sample2 log =
    if both_have_segments sample1 sample2 then
      match compare_segments (get_segments sample1) (get_segments sample2) log2 with
      | (Ok sg, log3) =>
          (Ok {| similarity := 0.3 * combined + 0.7 * sg;
                 cosine_similarity := Some c;
                 dtw_similarity := Some combined;
                 segment_similarity := if 0 <? sg then Some sg else None;
                 method := "full";
                 stage := if 0 <? sg then 3 else 2 |}, log3)
      | (Raise e, log3) => (Raise e, log3)
      end
    else
      (Ok {| similarity := combined;
             cosine_similarity := Some c;
             dtw_similarity := Some combined;
             segment_similarity := None;
             method := "full";
             stage := 2 |}, log2).
Proof.
  intros E Hc. cbv zeta. unfold stage2_alignment, stage2_log, both_have_segments.
  unfold two_stage_matcher. unfold bind at 1.
  rewrite (calculate_similarity_cosine _ _ _ _ E).
  fold (stage1_cosine sample1 sample2). rewrite Hc.
  unfold bind at 1. rewrite (calculate_similarity_combined _ _ _ _ _ E).
  fold (stage1_cosine sample1 sample2).
  destruct (truthy (segments sample1) && truthy (segments sample2)).
  - unfold bind.
    destruct (compare_segments _ _ _) as [[sg | e] log3]; reflexivity.
  - reflexivity.
Qed.

(** [compare_segments] returns when all descriptors have one length. *)
Lemma mapM_ok {A B} (f : A -> M B) (l : list A) (log : list call) :
  (forall x log0, In x l -> exists y log1, f x log0 = (Ok y, log1)) ->
  exists ys log', mapM f l log = (Ok ys, log') /\ length ys = length l.
Proof.
  revert log. induction l as [| x tl IH]; intros log H; simpl.
  - exists [], log. split; reflexivity.
  - destruct (H x log (or_introl eq_refl)) as (y & log1 & Hy).
    destruct (IH log1 (fun z l0 Hz => H z l0 (or_intror Hz))) as (ys & log2 & Hys & Hlen).
    exists (y :: ys), log2. unfold bind. rewrite Hy, Hys. unfold ret.
    split; [reflexivity | simpl; congruence].
Qed.

Lemma compare_segments_ok (k : nat) (segments1 segments2 : list vec) (log : list call) :
  Forall (fun s => length s = k) segments1 ->
  Forall (fun s => length s = k) segments2 ->
  exists v log', compare_segments segments1 segments2 log = (Ok v, log').
Proof.
  intros H1 H2. rewrite Forall_forall in H1, H2.
  assert (Hcos : forall a b, length a = k -> length b = k ->
            forall l0, exists y l1, segment_cosine a b l0 = (Ok y, l1)).
  { intros a b Ha Hb l0. unfold segment_cosine. rewrite np_dot_run.
    - eauto.
    - rewrite !length_map. congruence. }
  assert (Hmat : forall (reference query : list vec) l0,
            (forall s, In s reference -> length s = k) ->
            (forall s, In s query -> length s = k) ->
            exists m l1,
              mapM (fun ref_seg => mapM (fun q_seg => segment_cosine ref_seg q_seg) query)
                   reference l0 = (Ok m, l1)).
  { intros reference query l0 Hr Hq.
    destruct (@mapM_ok _ _
                (fun ref_seg => mapM (fun q_seg => segment_cosine ref_seg q_seg) query)
                reference l0) as (m & l1 & Hm & _).
    - intros a l2 Ha.
      destruct (@mapM_ok _ _ (fun q_seg => segment_cosine a q_seg) query l2)
        as (row & l3 & Hrow & _).
      + intros b l4 Hb. apply Hcos; auto.
      + eauto.
    - eauto. }
  unfold compare_segments, bind, tick.
  destruct segments1 as [| a1 t1]; [unfold ret; eauto |].
  destruct segments2 as [| a2 t2]; [unfold ret; eauto |].
  destruct (Nat.leb (length (a2 :: t2)) (length (a1 :: t1))).
  - destruct (Hmat (a1 :: t1) (a2 :: t2) (log ++ [call_compare_segments]) H1 H2)
      as (m & l1 & ->).
    destruct (snd (greedy_matches m (length (a2 :: t2)))); unfold ret; eauto.
  - destruct (Hmat (a2 :: t2) (a1 :: t1) (log ++ [call_compare_segments]) H2 H1)
      as (m & l1 & ->).
    destruct (snd (greedy_matches m (length (a1 :: t1)))); unfold ret; eauto.
Qed.

End CascadeFacts.

Section CascadeClaims.
Context {NP : Numpy} {DTW : FastDTW}.

Lemma calls_since_app (log added : list call) : calls_since log (log ++ added) = added.
Proof.
  unfold calls_since. rewrite skipn_app, skipn_all, Nat.sub_diag. reflexivity.
Qed.

(** C1. When the dot product of the two fingerprints is below 0.5, the matcher
    returns that value as [similarity] with method ["cosine_only"] and stage 1,
    and the only library call of the run is the one [np.dot]: neither
    [fastdtw] nor [compare_segments] is entered. *)
Theorem stage1_short_circuit (sample1 sample2 : sample) (log : list call) :
  length (feature_vector sample1) = length (feature_vector sample2) ->
  (stage1_cosine sample1 sample2 <? 0.5) = true ->
  two_stage_matcher sample1 sample2 log =
    (Ok {| similarity := stage1_cosine sample1 sample2;
           cosine_similarity := None;
           dtw_similarity := None;
           segment_similarity := None;
           method := "cosine_only";
           stage := 1 |},
     log ++ [call_np_dot])
  /\ calls_since log (snd (two_stage_matcher sample1 sample2 log)) = [call_np_dot]
  /\ ~ In call_fastdtw (calls_since log (snd (two_stage_matcher sample1 sample2 log)))
  /\ ~ In call_compare_segments (calls_since log (snd (two_stage_matcher sample1 sample2 log))).
Proof.
  intros E Hc.
  assert (Hrun : two_stage_matcher sample1 sample2 log =
            (Ok {| similarity := stage1_cosine sample1 sample2;
                   cosine_similarity := None;
                   dtw_similarity := None;
                   segment_similarity := None;
                   method := "cosine_only";
                   stage := 1 |},
             log ++ [call_np_dot])).
  { unfold two_stage_matcher. unfold bind at 1.
    rewrite (calculate_similarity_cosine _ _ _ _ E).
    fold (stage1_cosine sample1 sample2). rewrite Hc. reflexivity. }
  rewrite Hrun. simpl snd. rewrite calls_since_app.
  repeat split; simpl; intros [H | []]; discriminate.
Qed.

(** C2, on the code.  Whenever both samples carry segments and their
    comparison returns a value that is not positive, Stage 3 has run and the
    final similarity is the blend [0.3 * combined + 0.7 * sg], yet the result
    reports stage 2 and no [segment_similarity]: both fields are decided by
    [segment_sim > 0].  So it is for two samples that pass Stage 1 and carry
    one segment descriptor each, the two descriptors orthogonal. *)
Theorem stage3_reported_as_stage2 :
  (forall (sample1 sample2 : sample) (log : list call) (sg : float) (log3 : list call),
     length (feature_vector sample1) = length (feature_vector sample2) ->
     (stage1_cosine sample1 sample2 <? 0.5) = false ->
     both_have_segments sample1 sample2 = true ->
     compare_segments (get_segments sample1) (get_segments sample2)
       (snd (stage2_alignment sample1 sample2 log)) = (Ok sg, log3) ->
     (0 <? sg) = false ->
     let c := stage1_cosine sample1 sample2 in
     let combined := stage2_combined c (fst (stage2_alignment sample1 sample2 log)) in
     two_stage_matcher sample1 sample2 log =
       (Ok {| similarity := 0.3 * combined + 0.7 * sg;
              cosine_similarity := Some c;
              dtw_similarity := Some combined;
              segment_similarity := None;
              method := "full";
              stage := 2 |}, log3))
  /\ both_have_segments sample_x sample_y = true
  /\ two_stage_matcher (NP := seq_numpy) (DTW := exact_dtw) sample_x sample_y [] =
       (Ok {| similarity := 0.3 * 1 + 0.7 * 0;
              cosine_similarity := Some 1;
              dtw_similarity := Some 1;
              segment_similarity := None;
              method := "full";
              stage := 2 |},
        [call_np_dot; call_np_dot; call_fastdtw; call_compare_segments; call_np_dot])
  /\ (0.3 * 1 + 0.7 * 0 <? 1) = true.
Proof.
  split.
  - intros sample1 sample2 log sg log3 E Hc Hb Hsg Hpos. cbv zeta.
    pose proof (two_stage_matcher_full sample1 sample2 log E Hc) as Hfull.
    cbv zeta in Hfull. rewrite Hb, Hsg, Hpos in Hfull. exact Hfull.
  - repeat split; vm_compute; reflexivity.
Qed.

(** C3, as the code has it.  Let the Stage-1 score be at least 0.5 and let the
    alignment of Stage 2 raise.  The exception is caught:
    [calculate_similarity] returns the Stage-1 score, which is the Stage-2
    value reported as [dtw_similarity].  When Stage 3 does not
    run the final similarity is that score; when both samples carry segments
    and their comparison returns [sg], the final similarity is
    [0.3 * cosine + 0.7 * sg]. *)
Theorem dtw_failure_falls_back (sample1 sample2 : sample) (log : list call) (e : exn) :
  length (feature_vector sample1) = length (feature_vector sample2) ->
  (0.5 <=? stage1_cosine sample1 sample2) = true ->
  fst (stage2_alignment sample1 sample2 log) = Raise e ->
  let c := stage1_cosine sample1 sample2 in
  let log2 := snd (stage2_alignment sample1 sample2 log) in
  calculate_similarity (feature_vector sample1) (feature_vector sample2) "combined"
    (Some (sequence_features sample1)) (Some (sequence_features sample2))
    (log ++ [call_np_dot]) = (Ok c, log2)
  /\ (both_have_segments sample1 sample2 = false ->
   two_stage_matcher sample1 sample2 log =
     (Ok {| similarity := c;
            cosine_similarity := Some c;
            dtw_similarity := Some c;
            segment_similarity := None;
            method := "full";
            stage := 2 |}, log2))
  /\ (both_have_segments sample1 sample2 = true ->
      forall sg log3,
        compare_segments (get_segments sample1) (get_segments sample2) log2 = (Ok sg, log3) ->
        two_stage_matcher sample1 sample2 log =
          (Ok {| similarity := 0.3 * c + 0.7 * sg;
                 cosine_similarity := Some c;
                 dtw_similarity := Some c;
                 segment_similarity := if 0 <? sg then Some sg else None;
                 method := "full";
                 stage := if 0 <? sg then 3 else 2 |}, log3))
  /\ (forall r log', two_stage_matcher sample1 sample2 log = (Ok r, log') ->
      dtw_similarity r = Some c).
Proof.
  intros E Hc He. cbv zeta.
  pose proof (two_stage_matcher_full sample1 sample2 log E (leb_not_ltb _ _ Hc)) as Hfull.
  cbv zeta in Hfull. rewrite He in Hfull. simpl stage2_combined in Hfull.
  split; [| repeat split].
  - rewrite (calculate_similarity_combined _ _ _ _ _ E).
    unfold stage2_alignment, stage2_log in He. rewrite He. reflexivity.
  - intros Hb. rewrite Hb in Hfull. exact Hfull.
  - intros Hb sg log3 Hsg. rewrite Hb, Hsg in Hfull. exact Hfull.
  - intros r log' Hr. rewrite Hr in Hfull.
    destruct (both_have_segments sample1 sample2).
    + destruct (compare_segments _ _ _) as [[sg | e'] log3].
      * injection Hfull as -> _. reflexivity.
      * discriminate.
    + injection Hfull as -> _. reflexivity.
Qed.

(** C10. For a pair that reaches Stage 2, every result of the matcher has
    method ["full"], carries the Stage-1 score as [cosine_similarity] and the
    Stage-2 combined value as [dtw_similarity]: [0.4 * cosine + 0.6 * dtw]
    when the alignment returns the score [dtw], the cosine score when the
    alignment raised.  The matcher does return a result when the segment
    descriptors all have one length. *)
Theorem dtw_similarity_is_combined (sample1 sample2 : sample) (log : list call) :
  length (feature_vector sample1) = length (feature_vector sample2) ->
  (stage1_cosine sample1 sample2 <? 0.5) = false ->
  let c := stage1_cosine sample1 sample2 in
  (forall r log', two_stage_matcher sample1 sample2 log = (Ok r, log') ->
     method r = "full"%string
     /\ cosine_similarity r = Some c
     /\ (forall dtw, fst (stage2_alignment sample1 sample2 log) = Ok dtw ->
         dtw_similarity r = Some (0.4 * c + 0.6 * dtw))
     /\ (forall e, fst (stage2_alignment sample1 sample2 log) = Raise e ->
         dtw_similarity r = Some c))
  /\ (forall k,
        Forall (fun s => length s = k) (get_segments sample1) ->
        Forall (fun s => length s = k) (get_segments sample2) ->
        exists r log', two_stage_matcher sample1 sample2 log = (Ok r, log')).
Proof.
  intros E Hc. cbv zeta.
  pose proof (two_stage_matcher_full sample1 sample2 log E Hc) as Hfull.
  cbv zeta in Hfull. split.
  - intros r log' Hr. rewrite Hr in Hfull.
    assert (Hfields : method r = "full"%string
                      /\ cosine_similarity r = Some (stage1_cosine sample1 sample2)
                      /\ dtw_similarity r =
                           Some (stage2_combined (stage1_cosine sample1 sample2)
                                   (fst (stage2_alignment sample1 sample2 log)))).
    { destruct (both_have_segments sample1 sample2).
      - destruct (compare_segments _ _ _) as [[sg | e'] log3].
        + injection Hfull as -> _. repeat split.
        + discriminate.
      - injection Hfull as -> _. repeat split. }
    destruct Hfields as (Hm & Hcos & Hdtw).
    repeat split; auto.
    + intros dtw Hd. rewrite Hdtw, Hd. reflexivity.
    + intros e He. rewrite Hdtw, He. reflexivity.
  - intros k H1 H2.
    destruct (both_have_segments sample1 sample2).
    + destruct (compare_segments_ok k _ _ (snd (stage2_alignment sample1 sample2 log)) H1 H2)
        as (v & log3 & Hv).
      rewrite Hv in Hfull. eauto.
    + eauto.
Qed.

End CascadeClaims.

Lemma stage1_short_circuit_witness :
  two_stage_matcher (NP := seq_numpy) (DTW := exact_dtw) sample_low_a sample_low_b [] =
    (Ok {| similarity := 0;
           cosine_similarity := None;
           dtw_similarity := None;
           segment_similarity := None;
           method := "cosine_only";
           stage := 1 |},
     [call_np_dot]).
Proof.
  exact (proj1 (@stage1_short_circuit seq_numpy exact_dtw sample_low_a sample_low_b []
                  eq_refl eq_refl)).
Defined.

(** C3 as stated fails: the alignment raises (the first sequence has no
    frames), the Stage-1 score is 1, both samples carry a segment, and the
    similarity returned is [0.3 * 1 + 0.7 * sg] with [sg < 1], not 1. *)
Lemma dtw_failure_similarity_not_cosine :
  (0.5 <=? stage1_cosine (NP := seq_numpy) sample_no_frames sample_z) = true
  /\ fst (stage2_alignment (NP := seq_numpy) (DTW := exact_dtw) sample_no_frames sample_z [])
     = Raise IndexError
  /\ exists r log',
       two_stage_matcher (NP := seq_numpy) (DTW := exact_dtw) sample_no_frames sample_z []
       = (Ok r, log')
       /\ stage1_cosine (NP := seq_numpy) sample_no_frames sample_z = 1
       /\ dtw_similarity r = Some 1
       /\ (similarity r <? 1) = true.
Proof.
  split; [vm_compute; reflexivity |].
  split; [vm_compute; reflexivity |].
  eexists. eexists. split; [vm_compute; reflexivity |].
  repeat split; vm_compute; reflexivity.
Qed.

Lemma dtw_failure_falls_back_witness :
  two_stage_matcher (NP := seq_numpy) (DTW := exact_dtw) sample_no_frames sample_plain [] =
    (Ok {| similarity := 1;
           cosine_similarity := Some 1;
           dtw_similarity := Some 1;
           segment_similarity := None;
           method := "full";
           stage := 2 |},
     [call_np_dot; call_np_dot]).
Proof.
  exact (proj1 (proj2 (@dtw_failure_falls_back seq_numpy exact_dtw sample_no_frames
                         sample_plain [] IndexError eq_refl eq_refl eq_refl)) eq_refl).
Defined.

Lemma dtw_similarity_is_combined_witness :
  exists r log',
    two_stage_matcher (NP := seq_numpy) (DTW := exact_dtw) sample_x sample_z [] = (Ok r, log')
    /\ dtw_similarity r = Some (0.4 * 1 + 0.6 * 1).
Proof.
  destruct (@dtw_similarity_is_combined seq_numpy exact_dtw sample_x sample_z []
              eq_refl eq_refl) as [Hall Hex].
  destruct (Hex 2%nat) as (r & log' & Hr).
  - repeat constructor.
  - repeat constructor.
  - exists r, log'. split; [exact Hr |].
    destruct (Hall r log' Hr) as (_ & _ & Hd & _).
    exact (Hd 1 eq_refl).
Defined.

(** * The reference instances satisfy the laws *)

Lemma seq_inner_zero (v : vec) : is_zero_vec v = true -> seq_inner v v = 0.
Proof.
  unfold seq_inner. induction v as [| x tl IH]; simpl; intros H.
  - reflexivity.
  - apply andb_prop in H. destruct H as [Hx Htl].
    destruct (is_zero_cases x Hx) as [-> | ->]; simpl; exact (IH Htl).
Qed.

Lemma seq_inner_nan_acc (l : list (float * float)) :
  fold_left (fun acc p => acc + fst p * snd p) l nan = nan.
Proof.
  induction l as [| p tl IH]; simpl; [reflexivity |]. rewrite add_nan_l. exact IH.
Qed.

Lemma seq_inner_nan (v : vec) (acc : float) :
  existsb PrimFloat.is_nan v = true ->
  fold_left (fun acc p => acc + fst p * snd p) (combine v v) acc = nan.
Proof.
  revert acc. induction v as [| x tl IH]; simpl; intros acc H; [discriminate |].
  destruct (PrimFloat.is_nan x) eqn:Hx.
  - rewrite (is_nan_eq x Hx). change (nan * nan) with nan. rewrite add_nan_r.
    apply seq_inner_nan_acc.
  - apply IH. exact H.
Qed.

Lemma seq_numpy_laws : @NumpyLaws seq_numpy.
Proof.
  constructor.
  - intros v Hv. simpl. unfold seq_norm. rewrite (seq_inner_zero v Hv). reflexivity.
  - intros v Hv. simpl. unfold seq_norm, seq_inner. rewrite (seq_inner_nan v 0 Hv).
    reflexivity.
  - reflexivity.
Qed.

Lemma toy_librosa_laws (sc : scenario) : rms sc <> [] -> @LibrosaLaws (toy_librosa sc).
Proof.
  intros Hrms. constructor; unfold toy_librosa; cbn [librosa_feature_mfcc
    librosa_feature_chroma_stft librosa_feature_melspectrogram librosa_feature_tempogram
    librosa_feature_rms librosa_effects_preemphasis]; intros;
    try match goal with |- context [match ?n with O => _ | S _ => _ end] => destruct n end;
    cbn [length]; rewrite ?repeat_length; auto; lia.
Qed.

(** * The feature extractors *)

Section FeatureFacts.
Context {NP : Numpy} {LR : Librosa}.

(** The loop of [extract_pause_patterns] computes the run lengths. *)
Lemma pause_runs_fold (is_pause : list bool) (acc : list nat) (current : nat) :
  (let '(pause_lengths, current_pause) :=
     fold_left
       (fun (st : list nat * nat) (b : bool) =>
          let '(pause_lengths, current_pause) := st in
          if b then (pause_lengths, S current_pause)
          else if Nat.ltb 0 current_pause then (pause_lengths ++ [current_pause], 0%nat)
          else (pause_lengths, current_pause))
       is_pause (acc, current) in
   if Nat.ltb 0 current_pause then pause_lengths ++ [current_pause] else pause_lengths)
  = acc ++ run_lengths_from current is_pause.
Proof.
  revert acc current. induction is_pause as [| b tl IH]; intros acc current; simpl.
  - destruct (Nat.ltb 0 current); [reflexivity | now rewrite app_nil_r].
  - destruct b.
    + apply IH.
    + destruct (Nat.ltb 0 current) eqn:Hc.
      * rewrite IH, <- app_assoc. reflexivity.
      * apply Nat.ltb_ge in Hc. assert (current = 0%nat) as -> by lia. apply IH.
Qed.

Lemma pause_runs_run_lengths (is_pause : list bool) :
  pause_runs is_pause = run_lengths is_pause.
Proof.
  unfold pause_runs, run_lengths. exact (pause_runs_fold is_pause [] 0%nat).
Qed.

Lemma run_lengths_from_positive (current : nat) (is_pause : list bool) :
  Forall (fun n => (0 < n)%nat) (run_lengths_from current is_pause).
Proof.
  revert current. induction is_pause as [| b tl IH]; intros current; simpl.
  - destruct (Nat.ltb 0 current) eqn:Hc; constructor.
    + now apply Nat.ltb_lt. 
    + constructor.
  - destruct b; [apply IH |].
    destruct (Nat.ltb 0 current) eqn:Hc; [constructor |]; try apply IH.
    now apply Nat.ltb_lt.
Qed.

Lemma extract_pause_patterns_spec (y : signal) (sr : Z) (pause_patterns : vec) :
  extract_pause_patterns y sr = Ok pause_patterns ->
  exists rms_max,
    np_max (librosa_feature_rms y (py_int (of_Z sr * 0.01))) = Ok rms_max
    /\ pause_patterns =
         pause_statistics
           (run_lengths (map (fun e => e <? pause_threshold rms_max)
                             (librosa_feature_rms y (py_int (of_Z sr * 0.01))))).
Proof.
  unfold extract_pause_patterns, rbind.
  destruct (np_max _) as [rms_max | e]; [| discriminate].
  intros H. exists rms_max. split; [reflexivity |].
  rewrite pause_runs_run_lengths in H.
  destruct (run_lengths _) as [| n tl]; injection H as <-; reflexivity.
Qed.

Lemma extract_pause_patterns_total {LL : LibrosaLaws} (y : signal) (sr : Z) :
  exists pause_patterns, extract_pause_patterns y sr = Ok pause_patterns.
Proof.
  unfold extract_pause_patterns, rbind.
  pose proof (rms_frames y (py_int (of_Z sr * 0.01))) as Hne.
  destruct (librosa_feature_rms y (py_int (of_Z sr * 0.01))) as [| e tl]; [congruence |].
  simpl np_max. cbv beta iota.
  match goal with |- context [pause_runs ?l] => destruct (pause_runs l) end; eauto.
Qed.

Lemma extract_raw_inv (y : signal) (sr : Z) (raw : vec) (f : features) :
  extract_raw y sr = Ok (raw, f) ->
  let yn := apply_voice_normalization y sr in
  extract_pause_patterns yn sr = Ok (out_pause_patterns f)
  /\ raw = raw_feature_vector (librosa_feature_mfcc yn sr 20)
             (librosa_feature_chroma_stft yn sr)
             (librosa_feature_melspectrogram yn sr 128)
             (librosa_feature_tempogram yn sr)
             (extract_pitch_contour yn sr)
             (extract_formants yn sr 3)
             (out_pause_patterns f)
  /\ out_feature_vector f = normalize raw
  /\ out_vector_dimension f = length (normalize raw)
  /\ out_pitch_contour f = extract_pitch_contour yn sr
  /\ out_formants f = extract_formants yn sr 3.
Proof.
  unfold extract_raw, rbind. cbv zeta.
  destruct (extract_pause_patterns _ _) as [pp | e]; [| discriminate].
  intros H. injection H as <- <-. simpl. repeat split.
Qed.

Lemma extract_raw_total {LL : LibrosaLaws} (y : signal) (sr : Z) :
  exists raw f, extract_raw y sr = Ok (raw, f).
Proof.
  unfold extract_raw, rbind. cbv zeta.
  destruct (extract_pause_patterns_total (apply_voice_normalization y sr) sr) as [pp ->].
  eauto.
Qed.

Lemma normalize_length (v : vec) : length (normalize v) = length v.
Proof. unfold normalize. apply length_map. Qed.

Lemma raw_feature_vector_last (mfccs chroma mel_spec tempo : matrix) (pitch_contour : vec)
  (formants : matrix) (pause_patterns : vec) :
  last (raw_feature_vector mfccs chroma mel_spec tempo pitch_contour formants pause_patterns) 0
  = np_mean pause_patterns.
Proof.
  unfold raw_feature_vector. rewrite !app_assoc. apply last_last.
Qed.

Lemma raw_feature_vector_length (mfccs chroma mel_spec tempo : matrix) (pitch_contour : vec)
  (formants : matrix) (pause_patterns : vec) :
  length mfccs = 20%nat -> length chroma = 12%nat ->
  (20 <= length mel_spec)%nat -> (20 <= length tempo)%nat -> length formants = 3%nat ->
  length (raw_feature_vector mfccs chroma mel_spec tempo pitch_contour formants pause_patterns)
  = 98%nat.
Proof.
  intros H1 H2 H3 H4 H5. unfold raw_feature_vector, mean_axis1, std_axis1.
  rewrite !length_app, !length_firstn, !length_map.
  rewrite (Nat.min_l 20 (length mel_spec)), (Nat.min_l 20 (length tempo)) by assumption.
  cbn [length]. lia.
Qed.

Lemma extract_formants_rows (y : signal) (sr : Z) (n_formants : nat) :
  length (extract_formants y sr n_formants) = n_formants.
Proof. unfold extract_formants. rewrite length_map, length_seq. reflexivity. Qed.

(** The fingerprint has 98 = 20+20+12+20+20+1+1+3+1 components, whatever the
    length of the buffer. *)
Lemma fingerprint_dimension {LL : LibrosaLaws} (y : signal) (sr : Z) (raw : vec) (f : features) :
  extract_raw y sr = Ok (raw, f) ->
  length raw = 98%nat /\ length (out_feature_vector f) = 98%nat
  /\ out_vector_dimension f = 98%nat.
Proof.
  intros H. destruct (extract_raw_inv y sr raw f H) as (_ & Hraw & Hfv & Hdim & _).
  assert (Hlen : length raw = 98%nat).
  { rewrite Hraw. apply raw_feature_vector_length.
    - apply mfcc_rows.
    - apply chroma_rows.
    - rewrite melspectrogram_rows. lia.
    - apply tempogram_rows.
    - apply extract_formants_rows. }
  rewrite Hfv, Hdim, normalize_length. auto.
Qed.

(** The division by the norm has no guard: dividing a vector of zeros by its
    norm gives NaN in every component. *)
Lemma normalize_zero {NL : NumpyLaws} (v : vec) :
  is_zero_vec v = true -> normalize v = repeat nan (length v).
Proof.
  intros Hv. unfold normalize. rewrite (np_linalg_norm_zero v Hv).
  clear NL. induction v as [| x tl IH]; simpl in *.
  - reflexivity.
  - apply andb_prop in Hv. destruct Hv as [Hx Htl].
    rewrite (zero_div_zero x Hx), (IH Htl). reflexivity.
Qed.

(** The loop of [segment_audio] keeps, in order, the intervals that pass its
    test and stores one descriptor for each. *)
Lemma segment_audio_fold (y : signal) (sr : Z) (ivs : list (Z * Z)) (acc : list vec) :
  fold_left
    (fun segments (iv : Z * Z) =>
       let '(start, end_) := iv in
       if of_Z sr * 0.5 <? of_Z (end_ - start) then
         let segment := slice (Z.to_nat start) (Z.to_nat end_) y in
         let mfccs := librosa_feature_mfcc segment sr 13 in
         segments ++ [mean_axis1 mfccs]
       else segments)
    ivs acc
  = acc ++ map (segment_descriptor y sr) (filter (longer_than_half_second sr) ivs).
Proof.
  revert acc. induction ivs as [| [start end_] tl IH]; intros acc; simpl.
  - now rewrite app_nil_r.
  - rewrite IH. unfold longer_than_half_second at 2. simpl.
    destruct (of_Z sr * 0.5 <? of_Z (end_ - start)); simpl.
    + rewrite <- app_assoc. reflexivity.
    + reflexivity.
Qed.

Lemma segment_audio_filter_map (y : signal) (sr : Z) :
  segment_audio y sr =
    map (segment_descriptor y sr)
        (filter (longer_than_half_second sr) (librosa_effects_split y)).
Proof. unfold segment_audio. cbv zeta. apply segment_audio_fold. Qed.


Lemma extract_pitch_contour_cases (y : signal) (sr : Z) :
  let pitches := fst (librosa_core_piptrack y sr) in
  let magnitudes := snd (librosa_core_piptrack y sr) in
  let clamped :=
    map (fun t => clamp_pitch (selected_pitch pitches magnitudes t)) (seq 0 (ncols pitches)) in
  extract_pitch_contour y sr =
    if Nat.eqb (length clamped) 0 || forallb (fun p => p =? 0) clamped then [0] else clamped.
Proof.
  cbv zeta. unfold extract_pitch_contour.
  destruct (librosa_core_piptrack y sr) as [pitches magnitudes]. simpl fst. simpl snd.
  rewrite map_map. reflexivity.
Qed.

(** A buffer no longer than one 25 ms frame has no formant frame. *)
Lemma extract_formants_short (y : signal) :
  (Z.of_nat (length (librosa_effects_preemphasis y)) <= 551)%Z ->
  extract_formants y 22050 3 = [[]; []; []].
Proof.
  intros Hlen. unfold extract_formants.
  change (py_int (of_Z 22050 * 0.025)) with 551%Z.
  change (py_int (of_Z 22050 * 0.01)) with 220%Z.
  cbv zeta. unfold py_range.
  assert (Hq : ((Z.of_nat (length (librosa_effects_preemphasis y)) - 551 + 220 - 1)
                / 220 <= 0)%Z).
  { apply Z.lt_succ_r. apply Z.div_lt_upper_bound; lia. }
  replace (Z.to_nat ((Z.of_nat (length (librosa_effects_preemphasis y)) - 551 + 220 - 1)
                     / 220)) with 0%nat by lia.
  reflexivity.
Qed.

Lemma apply_voice_normalization_length {LL : LibrosaLaws} (y : signal) (sr : Z) :
  length (apply_voice_normalization y sr) = length y.
Proof.
  unfold apply_voice_normalization. cbv zeta.
  destruct (0 <? np_std (librosa_effects_preemphasis y));
    rewrite ?length_map; apply preemphasis_length.
Qed.

(** Formant tracks without frames put NaN into the raw feature vector. *)
Lemma raw_feature_vector_nan {NL : NumpyLaws} (mfccs chroma mel_spec tempo : matrix)
  (pitch_contour pause_patterns : vec) :
  existsb PrimFloat.is_nan
    (raw_feature_vector mfccs chroma mel_spec tempo pitch_contour [[]; []; []] pause_patterns)
  = true.
Proof.
  unfold raw_feature_vector. rewrite !existsb_app.
  cbn [mean_axis1 map existsb]. rewrite np_mean_empty.
  change (PrimFloat.is_nan nan) with true. cbn [orb]. rewrite !orb_true_r. reflexivity.
Qed.

(** Dividing by the norm of a vector with a NaN component gives NaN in every
    component. *)
Lemma normalize_nan {NL : NumpyLaws} (v : vec) :
  existsb PrimFloat.is_nan v = true -> normalize v = repeat nan (length v).
Proof.
  intros Hv. unfold normalize. rewrite (np_linalg_norm_nan v Hv).
  clear. induction v as [| x tl IH]; simpl; [reflexivity |].
  rewrite div_nan_r, IH. reflexivity.
Qed.

End FeatureFacts.

Section FeatureClaims.
Context {NP : Numpy} {LR : Librosa}.

(** C6, as the code has it.  The last component of the raw feature vector is
    [np.mean] of the whole array of pause features, the mean of the four
    scalars, not its second entry.  The pause extractor returns exactly the
    four scalars count, mean length, standard deviation (0 with fewer than two
    pauses) and longest pause (0 without pauses) of the runs of frames that
    the code classifies as pauses: those whose energy is below the threshold
    [0.05 * max] in the float32 comparison of the envelope. *)
Theorem last_component_is_mean_of_pause_features (y : signal) (sr : Z) (raw : vec)
  (f : features) :
  extract_raw y sr = Ok (raw, f) ->
  let energy := librosa_feature_rms (apply_voice_normalization y sr)
                  (py_int (of_Z sr * 0.01)) in
  last raw 0 = np_mean (out_pause_patterns f)
  /\ length (out_pause_patterns f) = 4%nat
  /\ exists energy_max,
       np_max energy = Ok energy_max
       /\ out_pause_patterns f =
            pause_statistics
              (run_lengths (map (fun e => e <? pause_threshold energy_max) energy)).
Proof.
  intros H. cbv zeta. destruct (extract_raw_inv y sr raw f H) as (Hpp & Hraw & _).
  destruct (extract_pause_patterns_spec _ _ _ Hpp) as (energy_max & Hmax & Hstat).
  repeat split.
  - rewrite Hraw. apply raw_feature_vector_last.
  - rewrite Hstat. reflexivity.
  - exists energy_max. split; assumption.
Qed.

(** C7, as the code has it.  The segmenter returns, in the order of the
    intervals the silence detector reports, one descriptor of 13 coefficients
    for every interval with [end - start > sr * 0.5].  A single reported
    interval gives one segment when it is longer than half a second and none
    otherwise; at 22050 Hz an interval is kept from 11026 samples on, and one
    of exactly 11025 samples, half a second, is dropped.  This holds for the
    interval that spans the whole buffer too, which is what the detector
    reports for an all-silent buffer (it measures every frame against the
    peak of the buffer): such a buffer gives one segment when it is longer
    than half a second.  No reported interval gives the empty list. *)
Theorem segment_audio_keeps_long_intervals {LL : LibrosaLaws} (y : signal) (sr : Z) :
  segment_audio y sr =
    map (segment_descriptor y sr)
        (filter (longer_than_half_second sr) (librosa_effects_split y))
  /\ Forall (fun d => length d = 13%nat) (segment_audio y sr)
  /\ (forall iv, librosa_effects_split y = [iv] ->
        segment_audio y sr =
          if longer_than_half_second sr iv then [segment_descriptor y sr iv] else [])
  /\ (librosa_effects_split y = [(0, Z.of_nat (length y))%Z] ->
        length (segment_audio y sr) =
          if longer_than_half_second sr (0, Z.of_nat (length y))%Z then 1%nat else 0%nat)
  /\ (librosa_effects_split y = [] -> segment_audio y sr = [])
  /\ longer_than_half_second 22050 (0, 11026)%Z = true
  /\ longer_than_half_second 22050 (0, 11025)%Z = false.
Proof.
  pose proof (segment_audio_filter_map y sr) as Hsa.
  split; [exact Hsa |].
  split; [| split; [| split; [| split; [| split; vm_compute; reflexivity]]]].
  - rewrite Hsa. apply Forall_forall. intros d Hd. apply in_map_iff in Hd.
    destruct Hd as (iv & <- & _). unfold segment_descriptor, mean_axis1.
    rewrite length_map. apply mfcc_rows.
  - intros iv Hone. rewrite Hsa, Hone. simpl.
    destruct (longer_than_half_second sr iv); reflexivity.
  - intros Hwhole. rewrite Hsa, Hwhole. cbn [filter].
    destruct (longer_than_half_second sr (0, Z.of_nat (length y))%Z); reflexivity.
  - intros Hno. rewrite Hsa, Hno. reflexivity.
Qed.


End FeatureClaims.

(** C5, on the code.  Every decodable buffer of at most 551 samples (one
    25 ms frame at 22050 Hz) gets a fingerprint of dimension 98 whose
    components are all NaN: [extract_formants] returns three tracks without
    any frame, their means are means of empty arrays, so the raw vector holds
    NaN, its norm is NaN, and the division spreads NaN over the vector.  The
    norm of that fingerprint is NaN, not 1. *)
Theorem short_clip_fingerprint_is_nan {NP : Numpy} {LR : Librosa} {NL : NumpyLaws}
  {LL : LibrosaLaws} (audio_base64 audio_type : string) (segment : bool) (y : signal) :
  librosa_load audio_base64 (file_extension audio_type) = Ok y ->
  (Z.of_nat (length y) <= 551)%Z ->
  exists f,
    process_audio audio_base64 audio_type segment = Ok f
    /\ out_formants f = [[]; []; []]
    /\ out_vector_dimension f = 98%nat
    /\ out_feature_vector f = repeat nan 98.
Proof.
  intros Hload Hlen. unfold process_audio, rbind. rewrite Hload.
  destruct (extract_raw_total y sr_load) as (raw & f & Hraw). rewrite Hraw.
  destruct (fingerprint_dimension y sr_load raw f Hraw) as (Hraw98 & _ & Hdim).
  destruct (extract_raw_inv y sr_load raw f Hraw) as (_ & Hr & Hfv & _ & _ & Hform).
  assert (Hshort : extract_formants (apply_voice_normalization y sr_load) sr_load 3
                   = [[]; []; []]).
  { apply extract_formants_short.
    rewrite preemphasis_length, apply_voice_normalization_length. exact Hlen. }
  eexists. split; [reflexivity |]. cbn [out_formants out_vector_dimension out_feature_vector snd].
  repeat split.
  - rewrite Hform. exact Hshort.
  - exact Hdim.
  - rewrite Hfv, <- Hraw98. apply normalize_nan.
    rewrite Hr, Hshort. apply raw_feature_vector_nan.
Qed.

Lemma short_clip_fingerprint_is_nan_witness :
  exists f,
    process_audio (NP := seq_numpy) (LR := toy_librosa short_clip) "clip" "audio/wav" true
      = Ok f
    /\ out_formants f = [[]; []; []]
    /\ out_vector_dimension f = 98%nat
    /\ out_feature_vector f = repeat nan 98.
Proof.
  exact (@short_clip_fingerprint_is_nan seq_numpy (toy_librosa short_clip) seq_numpy_laws
           (toy_librosa_laws short_clip ltac:(discriminate))
           "clip" "audio/wav" true (decoded short_clip) eq_refl
           ltac:(vm_compute; discriminate)).
Defined.

(** Digital silence does not give a zero raw vector: the first cepstral
    coefficient of silence is [-100 * sqrt(128)], so the raw vector has the
    norm 1131.37 and the fingerprint is a vector of numbers. *)
Example silence_raw_vector_run :
  exists raw f,
    extract_raw (NP := seq_numpy) (LR := toy_librosa silence) (decoded silence) 22050
      = Ok (raw, f)
    /\ nth 0 raw 0 = -1131.3708498984761
    /\ is_zero_vec raw = false
    /\ np_linalg_norm (Numpy := seq_numpy) raw = 1131.3708498984761
    /\ existsb PrimFloat.is_nan (out_feature_vector f) = false.
Proof.
  eexists. eexists. split; [vm_compute; reflexivity |].
  repeat split; vm_compute; reflexivity.
Qed.

Lemma last_component_is_mean_of_pause_features_witness :
  exists raw f,
    extract_raw (NP := seq_numpy) (LR := toy_librosa one_pause) (decoded one_pause) 22050
      = Ok (raw, f)
    /\ last raw 0 = seq_mean (out_pause_patterns f).
Proof.
  eexists. eexists.
  split; [vm_compute; reflexivity |].
  exact (proj1 (@last_component_is_mean_of_pause_features seq_numpy (toy_librosa one_pause)
                  (decoded one_pause) 22050 _ _ ltac:(vm_compute; reflexivity))).
Defined.

(** C6 as stated fails: with one pause of two frames the pause features are
    [1; 2; 0; 2], the mean pause length is 2, and the last raw component is
    their mean 1.25. *)
Lemma last_component_not_mean_pause_length :
  exists raw f,
    extract_raw (NP := seq_numpy) (LR := toy_librosa one_pause) (decoded one_pause) 22050
      = Ok (raw, f)
    /\ out_pause_patterns f = [1; 2; 0; 2]
    /\ last raw 0 = 1.25
    /\ (last raw 0 =? nth 1 (out_pause_patterns f) 0) = false.
Proof.
  eexists. eexists. split; [vm_compute; reflexivity |].
  repeat split; vm_compute; reflexivity.
Qed.

Lemma segment_audio_keeps_long_intervals_witness :
  segment_audio (NP := seq_numpy) (LR := toy_librosa long_region) (decoded long_region) 22050
  = [segment_descriptor (NP := seq_numpy) (LR := toy_librosa long_region)
       (decoded long_region) 22050 (0, 11026)%Z]
  /\ Forall (fun d => length d = 13%nat)
       (segment_audio (NP := seq_numpy) (LR := toy_librosa long_region)
          (decoded long_region) 22050).
Proof.
  destruct (@segment_audio_keeps_long_intervals seq_numpy (toy_librosa long_region)
              (toy_librosa_laws long_region ltac:(discriminate))
              (decoded long_region) 22050) as (_ & H13 & Hone & _).
  split; [exact (Hone (0, 11026)%Z eq_refl) | exact H13].
Defined.

(** C7 as stated fails twice.  A buffer of exactly half a second (11025
    samples at 22050 Hz) that is one non-silent interval from its first to
    its last sample yields no segment.  And a buffer of 11026 samples of
    digital silence, which the detector reports as one interval spanning the
    buffer, yields one segment, not zero. *)
Lemma half_second_dropped_and_silence_kept :
  (length (decoded half_second) = 11025%nat
   /\ librosa_effects_split (Librosa := toy_librosa half_second) (decoded half_second)
      = [(0, 11025)%Z]
   /\ segment_audio (NP := seq_numpy) (LR := toy_librosa half_second)
        (decoded half_second) 22050 = [])
  /\ (decoded long_silence = repeat 0 11026
      /\ librosa_effects_split (Librosa := toy_librosa long_silence) (decoded long_silence)
         = [(0, 11026)%Z]
      /\ length (segment_audio (NP := seq_numpy) (LR := toy_librosa long_silence)
                   (decoded long_silence) 22050) = 1%nat).
Proof.
  split; repeat split; vm_compute; reflexivity.
Qed.


(** * Ranking *)

Section RankingFacts.
Context {NP : Numpy} {DTW : FastDTW} {LR : Librosa} {RNG : Random}.

Lemma match_loop_above (query : vec) (reciters : list reciter) :
  forall draws matches log out log',
    match_loop query reciters draws matches log = (Ok out, log') ->
    Forall above_threshold matches -> Forall above_threshold out.
Proof.
  induction reciters as [| r rest IH]; intros draws matches log out log' H Hm; simpl in H.
  - unfold ret in H. injection H as <- _. exact Hm.
  - unfold bind in H.
    destruct (calculate_similarity query (stored_feature_vector r) "combined" None None log)
      as [[sim | e] log1]; [| discriminate].
    apply IH in H; [exact H |].
    destruct (0.4 <? sim) eqn:Hs; [| exact Hm].
    apply Forall_app. split; [exact Hm |]. constructor; [exact Hs | constructor].
Qed.

Lemma match_loop_total (query : vec) (reciters : list reciter) :
  Forall (fun r => length (stored_feature_vector r) = length query) reciters ->
  forall draws matches log, exists out log',
    match_loop query reciters draws matches log = (Ok out, log').
Proof.
  induction 1 as [| r rest Hr _ IH]; intros draws matches log; simpl.
  - unfold ret. eauto.
  - unfold bind. rewrite (calculate_similarity_cosine _ _ _ _ (eq_sym Hr)). apply IH.
Qed.

Lemma insert_desc_above (x : match_entry) (l : list match_entry) :
  above_threshold x -> Forall above_threshold l -> Forall above_threshold (insert_desc x l).
Proof.
  intros Hx. induction 1 as [| y tl Hy Htl IH]; simpl.
  - constructor; [exact Hx | constructor].
  - destruct (similarity_score x <? similarity_score y); repeat constructor; auto.
Qed.

Lemma sort_desc_above (l : list match_entry) :
  Forall above_threshold l -> Forall above_threshold (sort_desc l).
Proof.
  induction 1 as [| x tl Hx Htl IH]; simpl; [constructor |].
  apply insert_desc_above; assumption.
Qed.

Lemma insert_desc_HdRel (y x : match_entry) (l : list match_entry) :
  scores_before y x -> HdRel scores_before y l -> HdRel scores_before y (insert_desc x l).
Proof.
  intros Hyx Hl. destruct l as [| z tl]; simpl.
  - constructor. exact Hyx.
  - destruct (similarity_score x <? similarity_score z); constructor.
    + inversion Hl; assumption.
    + exact Hyx.
Qed.

Lemma insert_desc_sorted (x : match_entry) (l : list match_entry) :
  above_threshold x -> Forall above_threshold l ->
  Sorted scores_before l -> Sorted scores_before (insert_desc x l).
Proof.
  intros Hx Hl Hs. induction l as [| y tl IH]; simpl.
  - repeat constructor.
  - inversion Hl as [| ? ? Hy Htl]; subst. inversion Hs as [| ? ? Hstl Hhd]; subst.
    destruct (similarity_score x <? similarity_score y) eqn:Hxy.
    + constructor.
      * apply IH; assumption.
      * apply insert_desc_HdRel; [| exact Hhd]. apply ltb_leb. exact Hxy.
    + constructor; [exact Hs |]. constructor. unfold scores_before.
      apply ltb_false_leb; [| | exact Hxy].
      * exact (ltb_not_nan_r _ _ Hx).
      * exact (ltb_not_nan_r _ _ Hy).
Qed.

Lemma sort_desc_sorted (l : list match_entry) :
  Forall above_threshold l -> Sorted scores_before (sort_desc l).
Proof.
  induction 1 as [| x tl Hx Htl IH]; simpl; [constructor |].
  apply insert_desc_sorted; [exact Hx | apply sort_desc_above; exact Htl | exact IH].
Qed.

Lemma firstn_sorted (n : nat) (l : list match_entry) :
  Sorted scores_before l -> Sorted scores_before (firstn n l).
Proof.
  revert l. induction n as [| n IH]; intros l Hs; simpl; [constructor |].
  destruct l as [| x tl]; [constructor |].
  inversion Hs as [| ? ? Hstl Hhd]; subst. constructor; [apply IH; exact Hstl |].
  destruct tl as [| y tl']; destruct n; simpl; constructor.
  inversion Hhd; assumption.
Qed.

Lemma firstn_above (n : nat) (l : list match_entry) :
  Forall above_threshold l -> Forall above_threshold (firstn n l).
Proof.
  revert l. induction n as [| n IH]; intros l H; simpl; [constructor |].
  destruct H as [| x tl Hx Htl]; constructor; auto.
Qed.

Lemma rank_reciters_unfold (query : vec) (reciters : list reciter) (log : list call) :
  rank_reciters query reciters log =
    match match_loop query reciters 0 [] log with
    | (Ok matches, log') => (Ok (firstn 5 (sort_desc matches)), log')
    | (Raise e, log') => (Raise e, log')
    end.
Proof. reflexivity. Qed.

Lemma rank_reciters_inv (query : vec) (reciters : list reciter) (log : list call)
  (top : list match_entry) (log' : list call) :
  rank_reciters query reciters log = (Ok top, log') ->
  exists matches log1,
    match_loop query reciters 0 [] log = (Ok matches, log1)
    /\ top = firstn 5 (sort_desc matches).
Proof.
  rewrite rank_reciters_unfold.
  destruct (match_loop query reciters 0 [] log) as [[ms | e] l1]; [| discriminate].
  intros H. exists ms, l1. split; [reflexivity |].
  apply (f_equal fst) in H.
  assert (Htop : Ok (firstn 5 (sort_desc ms)) = Ok top) by exact H.
  congruence.
Qed.

(** C8. Whatever the query and the candidates, a ranking that is returned
    holds only entries with a score above 0.4, is sorted by score in
    descending order and has at most five entries.  The ranking is returned
    whenever every stored fingerprint has the dimension of the query; for an
    empty candidate list it is the empty list, and the handler answers with
    success and no match. *)
Theorem ranking_filtered_sorted_top5 (query : vec) (reciters : list reciter)
  (log : list call) :
  (forall top log',
     rank_reciters query reciters log = (Ok top, log') ->
     Forall above_threshold top
     /\ descending top
     /\ (length top <= 5)%nat)
  /\ (Forall (fun r => length (stored_feature_vector r) = length query) reciters ->
      exists top log', rank_reciters query reciters log = (Ok top, log'))
  /\ rank_reciters query [] log = (Ok [], log)
  /\ (forall c audio audio_type f,
        process_audio (String c audio) audio_type true = Ok f ->
        do_POST (Some (String c audio)) audio_type [] =
          send_success [] (out_vector_dimension f)).
Proof.
  repeat split.
  - destruct (rank_reciters_inv _ _ _ _ _ H) as (ms & l1 & Hloop & ->).
    apply firstn_above, sort_desc_above.
    exact (match_loop_above _ _ _ _ _ _ _ Hloop (Forall_nil _)).
  - destruct (rank_reciters_inv _ _ _ _ _ H) as (ms & l1 & Hloop & ->).
    apply firstn_sorted, sort_desc_sorted.
    exact (match_loop_above _ _ _ _ _ _ _ Hloop (Forall_nil _)).
  - destruct (rank_reciters_inv _ _ _ _ _ H) as (ms & l1 & Hloop & ->).
    apply firstn_le_length.
  - intros Hdim. rewrite rank_reciters_unfold.
    destruct (match_loop_total query reciters Hdim 0%nat [] log) as (out & log' & ->).
    eauto.
  - intros c audio audio_type f Hp. unfold do_POST. rewrite Hp. reflexivity.
Qed.

End RankingFacts.

(** * Runs of the code on concrete inputs *)

Example pause_runs_run :
  pause_runs [true; true; false; false; true; false; true; true; true] = [2; 1; 3]%nat.
Proof. reflexivity. Qed.

Example extract_pause_patterns_run :
  extract_pause_patterns (NP := seq_numpy) (LR := toy_librosa one_pause) (decoded one_pause)
    22050 = Ok [1; 2; 0; 2].
Proof. vm_compute. reflexivity. Qed.

Example extract_pitch_contour_run :
  extract_pitch_contour (LR := toy_librosa one_pause) (decoded one_pause) 22050
  = [220; 0; 230].
Proof. vm_compute. reflexivity. Qed.

Example segment_audio_run :
  segment_audio (NP := seq_numpy) (LR := toy_librosa long_region) (decoded long_region) 22050
  = [repeat 1 13].
Proof. vm_compute. reflexivity. Qed.

Example compare_segments_run :
  compare_segments (NP := seq_numpy) [[3; 4]; [1; 0]] [[1; 0]] []
  = (Ok 1, [call_compare_segments; call_np_dot; call_np_dot]).
Proof. vm_compute. reflexivity. Qed.

Example two_stage_matcher_stage3_run :
  two_stage_matcher (NP := seq_numpy) (DTW := exact_dtw) sample_x sample_z []
  = (Ok {| similarity := 0.92609903369994107;
           cosine_similarity := Some 1;
           dtw_similarity := Some 1;
           segment_similarity := Some 0.89442719099991586;
           method := "full";
           stage := 3 |},
     [call_np_dot; call_np_dot; call_fastdtw; call_compare_segments; call_np_dot])
  /\ 0.3 * 1 + 0.7 * 0.89442719099991586 = 0.92609903369994107.
Proof. split; vm_compute; reflexivity. Qed.

Example rank_reciters_run :
  exists top log,
    rank_reciters (NP := seq_numpy) (DTW := exact_dtw) (RNG := fixed_random)
      [1; 0] candidates [] = (Ok top, log)
    /\ map match_id top = [6; 2; 4; 7; 8]%Z
    /\ map similarity_score top = [1; 0.9; 0.9; 0.8; 0.7].
Proof. eexists. eexists. split; [vm_compute; reflexivity |]. split; vm_compute; reflexivity. Qed.

Example rank_reciters_dimension_mismatch :
  fst (rank_reciters (NP := seq_numpy) (DTW := exact_dtw) (RNG := fixed_random)
         [1; 0] [candidate 1 [1; 0]; candidate 2 [1]] []) = Raise ValueError.
Proof. vm_compute. reflexivity. Qed.

(** * More on the binary64 order *)

Section FloatOrder.

Lemma SFleb_trans (a b c : spec_float) :
  SFleb a b = true -> SFleb b c = true -> SFleb a c = true.
Proof.
  unfold SFleb.
  destruct a as [sa | sa | | sa ma ea], b as [sb | sb | | sb mb eb],
           c as [sc | sc | | sc mc ec];
    simpl; try congruence;
    try (destruct sa; simpl; congruence);
    try (destruct sb; simpl; congruence);
    try (destruct sc; simpl; congruence);
    try (destruct sa, sb; simpl; congruence);
    try (destruct sa, sc; simpl; congruence);
    try (destruct sb, sc; simpl; congruence);
    try (destruct sa, sb, sc; simpl; congruence).
  destruct sa, sb, sc; simpl; try congruence;
    change (Pos.compare_cont Eq) with Pos.compare;
    destruct (Z.compare_spec ea eb), (Z.compare_spec eb ec), (Z.compare_spec ea ec);
    destruct (Pos.compare_spec ma mb), (Pos.compare_spec mb mc), (Pos.compare_spec ma mc);
    subst; simpl; try congruence; try lia.
Qed.

Lemma leb_trans (x y z : float) :
  (x <=? y) = true -> (y <=? z) = true -> (x <=? z) = true.
Proof. rewrite !FloatAxioms.leb_spec. apply SFleb_trans. Qed.

Lemma leb_refl (x : float) : PrimFloat.is_nan x = false -> (x <=? x) = true.
Proof.
  intros H%is_nan_Prim2SF. rewrite FloatAxioms.leb_spec. unfold SFleb.
  rewrite (SFcompare_refl _ H). reflexivity.
Qed.

Lemma leb_not_nan_l (x y : float) : (x <=? y) = true -> PrimFloat.is_nan x = false.
Proof.
  rewrite FloatAxioms.leb_spec. unfold SFleb. intros H. apply is_nan_Prim2SF. intros E.
  rewrite E in H. discriminate.
Qed.

Lemma mul_nan_r (x : float) : x * nan = nan.
Proof.
  apply Prim2SF_inj. rewrite FloatAxioms.mul_spec. change (Prim2SF nan) with S754_nan.
  unfold SF64mul, SFmul. destruct (Prim2SF x); reflexivity.
Qed.

Lemma ltb_not_nan_left (x y : float) : (x <? y) = true -> PrimFloat.is_nan x = false.
Proof. intros H. exact (leb_not_nan_l _ _ (ltb_leb _ _ H)). Qed.

Lemma ltb_trans (a b c : float) :
  (a <? b) = true -> (b <? c) = true -> (a <? c) = true.
Proof.
  intros Hab Hbc.
  destruct (a <? c) eqn:Hac; [reflexivity | exfalso].
  assert (Hca : (c <=? a) = true).
  { apply ltb_false_leb; [exact (ltb_not_nan_left _ _ Hab) | exact (ltb_not_nan_r _ _ Hbc)
                          | exact Hac]. }
  pose proof (leb_trans _ _ _ Hca (ltb_leb _ _ Hab)) as Hcb.
  rewrite (leb_not_ltb _ _ Hcb) in Hbc. discriminate.
Qed.

(** [max(0.0, x)] is a number that is not negative, whatever [x]. *)
Lemma py_max_zero_nonneg (x : float) :
  (0 <=? py_max 0 x) = true /\ PrimFloat.is_nan (py_max 0 x) = false.
Proof.
  unfold py_max. destruct (0 <? x) eqn:H.
  - split; [apply ltb_leb; exact H | exact (ltb_not_nan_r _ _ H)].
  - split; reflexivity.
Qed.

(** [min(1.0, max(0.0, x))] lies between 0 and 1, whatever [x]. *)
Lemma clip_unit_interval (x : float) : unit_interval (py_min 1 (py_max 0 x)).
Proof.
  destruct (py_max_zero_nonneg x) as [H0 Hn]. unfold unit_interval, py_min.
  destruct (py_max 0 x <? 1) eqn:H1.
  - split; [exact H0 | apply ltb_leb; exact H1].
  - split; reflexivity.
Qed.

End FloatOrder.

(** * More on the cascade *)

Section CascadeMore.
Context {NP : Numpy} {DTW : FastDTW}.

Lemma np_dot_raises (a b : vec) (log : list call) :
  length a <> length b ->
  np_dot a b log = (Raise ValueError, log ++ [call_np_dot]).
Proof.
  intros E. unfold np_dot, bind, tick, ret, raise.
  apply Nat.eqb_neq in E. rewrite E. reflexivity.
Qed.

Lemma calculate_similarity_raises (a b : vec) (method : string)
  (sequence1 sequence2 : option matrix) (log : list call) :
  length a <> length b ->
  calculate_similarity a b method sequence1 sequence2 log
  = (Raise ValueError, log ++ [call_np_dot]).
Proof.
  intros E. unfold calculate_similarity, bind. rewrite (np_dot_raises _ _ _ E). reflexivity.
Qed.

Lemma two_stage_matcher_raises (sample1 sample2 : sample) (log : list call) :
  length (feature_vector sample1) <> length (feature_vector sample2) ->
  two_stage_matcher sample1 sample2 log = (Raise ValueError, log ++ [call_np_dot]).
Proof.
  intros E. unfold two_stage_matcher. unfold bind at 1.
  rewrite (calculate_similarity_raises _ _ _ _ _ _ E). reflexivity.
Qed.

(** X1. Fingerprints of different dimensions are an error that nothing
    absorbs: [np.dot] stands before the [try], so [calculate_similarity]
    raises [ValueError] for every method and whatever sequences are given,
    and so does [two_stage_matcher], after the one call of [np.dot]. *)
Theorem dimension_mismatch_raises (sample1 sample2 : sample) (method : string)
  (sequence1 sequence2 : option matrix) (log : list call) :
  length (feature_vector sample1) <> length (feature_vector sample2) ->
  calculate_similarity (feature_vector sample1) (feature_vector sample2) method
    sequence1 sequence2 log = (Raise ValueError, log ++ [call_np_dot])
  /\ two_stage_matcher sample1 sample2 log = (Raise ValueError, log ++ [call_np_dot]).
Proof.
  intros E. split.
  - apply calculate_similarity_raises, E.
  - apply two_stage_matcher_raises, E.
Qed.

(** X2. [calculate_similarity] enters the alignment only for the methods
    ["dtw"] and ["combined"] with both sequences given.  Any other method
    name, known or not, and any missing sequence give the dot product after
    one call of [np.dot], and [fastdtw] is not called. *)
Theorem alignment_only_when_requested (vector1 vector2 : vec) (method : string)
  (sequence1 sequence2 : option matrix) (log : list call) :
  length vector1 = length vector2 ->
  ((method =? "dtw")%string || (method =? "combined")%string) = false
    \/ sequence1 = None \/ sequence2 = None ->
  calculate_similarity vector1 vector2 method sequence1 sequence2 log
  = (Ok (np_inner vector1 vector2), log ++ [call_np_dot]).
Proof.
  intros E H. unfold calculate_similarity, bind. rewrite (np_dot_run _ _ _ E).
  destruct H as [H | [-> | ->]].
  - rewrite H. destruct ((method =? "cosine")%string || is_none sequence1 || is_none sequence2);
      [reflexivity |]. destruct sequence1, sequence2; reflexivity.
  - rewrite orb_true_r. reflexivity.
  - rewrite !orb_true_r. reflexivity.
Qed.

(** The alignment, step by step. *)
Lemma dtw_alignment_unfold (sequence1 sequence2 : matrix) (log : list call) :
  dtw_alignment sequence1 sequence2 log =
    match shape1 sequence1, shape1 sequence2 with
    | Ok n1, Ok n2 =>
        let step := Nat.max 1 (Nat.min n1 n2 / 100) in
        let x := subsampled step sequence1 in
        let y := subsampled step sequence2 in
        (rbind (fastdtw_distance x y) (fun distance =>
         rbind (py_truediv distance (Nat.max (length x) (length y) * length sequence1))
           (fun q => Ok (py_max 0 (1 - q)))),
         log ++ [call_fastdtw])
    | Raise e, _ => (Raise e, log)
    | Ok _, Raise e => (Raise e, log)
    end.
Proof.
  unfold dtw_alignment, subsampled.
  cbv beta iota zeta delta [bind lift fastdtw tick ret rbind].
  destruct (shape1 sequence1) as [n1 | e1]; [| reflexivity].
  destruct (shape1 sequence2) as [n2 | e2]; [| reflexivity].
  destruct (fastdtw_distance _ _) as [distance | e]; [| reflexivity].
  destruct (py_truediv _ _) as [q | e]; reflexivity.
Qed.

(** X3. A score the alignment returns is a number that is not negative,
    whatever distance [fastdtw] returned (a NaN or a distance beyond the
    normalisation gives 0), and the alignment has called [fastdtw] once.  An
    alignment that raised before [fastdtw] leaves the log as it was. *)
Theorem alignment_score_not_negative (sequence1 sequence2 : matrix) (log : list call) :
  (forall dtw_sim log',
     dtw_alignment sequence1 sequence2 log = (Ok dtw_sim, log') ->
     (0 <=? dtw_sim) = true /\ PrimFloat.is_nan dtw_sim = false
     /\ log' = log ++ [call_fastdtw])
  /\ (forall e log',
        dtw_alignment sequence1 sequence2 log = (Raise e, log') ->
        log' = log \/ log' = log ++ [call_fastdtw]).
Proof.
  rewrite dtw_alignment_unfold. split.
  - intros dtw_sim log'.
    destruct (shape1 sequence1) as [n1 | e1]; [| discriminate].
    destruct (shape1 sequence2) as [n2 | e2]; [| discriminate].
    cbv zeta. destruct (fastdtw_distance _ _) as [distance | e]; [| discriminate].
    simpl rbind. destruct (py_truediv _ _) as [q | e]; [| discriminate].
    simpl rbind. intros H. injection H as <- <-.
    destruct (py_max_zero_nonneg (1 - q)) as [H0 Hn]. auto.
  - intros e log'.
    destruct (shape1 sequence1) as [n1 | e1]; [| intros H; injection H as _ <-; auto].
    destruct (shape1 sequence2) as [n2 | e2]; [| intros H; injection H as _ <-; auto].
    cbv zeta. intros H. injection H as _ <-. auto.
Qed.

End CascadeMore.

Lemma dimension_mismatch_raises_witness :
  two_stage_matcher (NP := seq_numpy) (DTW := exact_dtw) sample_short_vector
    sample_long_vector [] = (Raise ValueError, [call_np_dot]).
Proof.
  exact (proj2 (@dimension_mismatch_raises seq_numpy exact_dtw sample_short_vector
                  sample_long_vector "combined" None None []
                  ltac:(simpl; discriminate))).
Defined.

Lemma alignment_only_when_requested_witness :
  calculate_similarity (NP := seq_numpy) (DTW := exact_dtw) [0.6; 0.8] [0.6; 0.8]
    "euclidean" (Some [[1]]) (Some [[2]]) []
  = (Ok (seq_inner [0.6; 0.8] [0.6; 0.8]), [call_np_dot]).
Proof.
  exact (@alignment_only_when_requested seq_numpy exact_dtw [0.6; 0.8] [0.6; 0.8]
           "euclidean" (Some [[1]]) (Some [[2]]) [] eq_refl (or_introl eq_refl)).
Defined.

(** * Subsampling before the alignment *)

Section Subsampling.

Lemma stride_aux_bound (step skip : nat) (v : vec) :
  (skip < step)%nat ->
  (step * length (stride_aux step skip v) + skip <= length v + step - 1)%nat.
Proof.
  revert skip. induction v as [| x tl IH]; intros skip Hs; simpl.
  - lia.
  - destruct skip as [| k].
    + simpl. specialize (IH (step - 1)%nat ltac:(lia)). nia.
    + specialize (IH k ltac:(lia)). lia.
Qed.

Lemma stride_aux_one (v : vec) : stride_aux 1 0 v = v.
Proof. induction v as [| x tl IH]; simpl; [reflexivity | now rewrite IH]. Qed.

Lemma subsampled_length (step : nat) (sequence : matrix) :
  length (subsampled step sequence) = ncols (map (stride step) sequence).
Proof. unfold subsampled, transpose. now rewrite length_map, length_seq. Qed.

Lemma shape1_ncols (m : matrix) (n : nat) : shape1 m = Ok n -> ncols m = n /\ m <> [].
Proof. destruct m; simpl; intros H; [discriminate |]. injection H as <-. split; congruence. Qed.

Lemma subsampled_frames_bound (step n : nat) (sequence : matrix) :
  shape1 sequence = Ok n -> (1 <= step)%nat ->
  (step * length (subsampled step sequence) <= n + step - 1)%nat.
Proof.
  intros Hn Hs. rewrite subsampled_length.
  destruct sequence as [| row tl]; [discriminate |]. simpl in *. injection Hn as <-.
  unfold stride. pose proof (stride_aux_bound step 0 row ltac:(lia)). lia.
Qed.

(** X4. The stride [max(1, min(len1, len2) // 100)] bounds the cost of the
    alignment: the shorter of the two sequences goes to [fastdtw] with at most
    199 frames, however long it is.  When the shorter one has fewer than 200
    frames the stride is 1 and no frame of either sequence is dropped. *)
Theorem subsampling_bounds_shorter_sequence (sequence1 sequence2 : matrix) (n1 n2 : nat) :
  shape1 sequence1 = Ok n1 ->
  shape1 sequence2 = Ok n2 ->
  let step := Nat.max 1 (Nat.min n1 n2 / 100) in
  (n1 <= n2 -> length (subsampled step sequence1) <= 199)%nat
  /\ (n2 <= n1 -> length (subsampled step sequence2) <= 199)%nat
  /\ ((Nat.min n1 n2 < 200)%nat ->
      step = 1%nat
      /\ length (subsampled step sequence1) = n1
      /\ length (subsampled step sequence2) = n2).
Proof.
  intros H1 H2 step.
  assert (Hstep : (1 <= step)%nat) by (unfold step; lia).
  pose proof (subsampled_frames_bound step n1 sequence1 H1 Hstep) as B1.
  pose proof (subsampled_frames_bound step n2 sequence2 H2 Hstep) as B2.
  assert (Hdiv : forall n, (n < 100 * S (n / 100))%nat /\ (100 * (n / 100) <= n)%nat).
  { intros n. pose proof (Nat.div_mod_eq n 100).
    pose proof (Nat.mod_upper_bound n 100 ltac:(lia)). lia. }
  repeat split.
  - intros Hle. destruct (Hdiv n1) as [Hu Hl].
    assert (Hs : step = Nat.max 1 (n1 / 100)) by (unfold step; now rewrite Nat.min_l).
    destruct (Nat.le_gt_cases 1 (n1 / 100)) as [Hbig | Hsmall]; nia.
  - intros Hle. destruct (Hdiv n2) as [Hu Hl].
    assert (Hs : step = Nat.max 1 (n2 / 100)) by (unfold step; now rewrite Nat.min_r).
    destruct (Nat.le_gt_cases 1 (n2 / 100)) as [Hbig | Hsmall]; nia.
  - destruct (Hdiv (Nat.min n1 n2)) as [Hu Hl]. unfold step. nia.
  - assert (Hone : step = 1%nat)
      by (destruct (Hdiv (Nat.min n1 n2)) as [Hu Hl]; unfold step; nia).
    rewrite Hone, subsampled_length.
    destruct sequence1 as [| row tl]; [discriminate |]. simpl in *. injection H1 as <-.
    unfold stride. now rewrite stride_aux_one.
  - assert (Hone : step = 1%nat)
      by (destruct (Hdiv (Nat.min n1 n2)) as [Hu Hl]; unfold step; nia).
    rewrite Hone, subsampled_length.
    destruct sequence2 as [| row tl]; [discriminate |]. simpl in *. injection H2 as <-.
    unfold stride. now rewrite stride_aux_one.
Qed.

End Subsampling.

Lemma subsampling_bounds_shorter_sequence_witness :
  Nat.leb (length (subsampled 2 [repeat 1 250; repeat 2 250])) 199 = true.
Proof.
  apply Nat.leb_le.
  exact (proj1 (subsampling_bounds_shorter_sequence
                  [repeat 1 250; repeat 2 250] [repeat 1 300] 250 300
                  ltac:(vm_compute; reflexivity) ltac:(vm_compute; reflexivity))
               ltac:(apply Nat.leb_le; vm_compute; reflexivity)).
Defined.


(** * The greedy matching of [compare_segments] *)

Section Greedy.

Lemma existsb_In_Z (z : Z) (l : list Z) : existsb (Z.eqb z) l = true <-> In z l.
Proof.
  rewrite existsb_exists. split.
  - intros (x & Hx & E). apply Z.eqb_eq in E. now subst.
  - intros H. exists z. split; [exact H | apply Z.eqb_refl].
Qed.

Lemma NoDup_map_of_nat (l : list nat) : NoDup l -> NoDup (map Z.of_nat l).
Proof.
  induction 1 as [| x tl Hx Hnd IH]; simpl; constructor; [| exact IH].
  intros Hin. apply in_map_iff in Hin. destruct Hin as (y & E & Hy).
  apply Nat2Z.inj in E. subst. contradiction.
Qed.

Lemma best_match_step (sim_matrix : matrix) (used_indices : list Z) (j k : nat)
  (best : float * Z) :
  best_so_far sim_matrix used_indices j k best ->
  best_so_far sim_matrix used_indices j (S k)
    (if negb (existsb (Z.eqb (Z.of_nat k)) used_indices)
        && (fst best <? sim_entry sim_matrix k j)
     then (sim_entry sim_matrix k j, Z.of_nat k) else best).
Proof.
  set (s := sim_entry sim_matrix k j).
  intros IH.
  destruct (existsb (Z.eqb (Z.of_nat k)) used_indices) eqn:Hu; simpl negb; cbn [andb].
  - (* reference k is used: nothing changes *)
    assert (Hin : In (Z.of_nat k) used_indices) by (apply existsb_In_Z; exact Hu).
    destruct IH as [[-> Hnone] | (i0 & Hi0 & Hidx & Hfree & Hval & Hpos & Hmax)].
    + left. split; [reflexivity |]. intros i Hi Hfree.
      destruct (Nat.eq_dec i k) as [-> | Hne]; [contradiction | apply Hnone; [lia | exact Hfree]].
    + right. exists i0. repeat split; auto.
      intros i Hi Hfree' Hn.
      destruct (Nat.eq_dec i k) as [-> | Hne]; [contradiction | apply Hmax; auto; lia].
  - assert (Hfreek : ~ In (Z.of_nat k) used_indices).
    { intros Hin. apply existsb_In_Z in Hin. congruence. }
    destruct (fst best <? s) eqn:Hlt.
    + (* reference k becomes the best *)
      right. exists k. cbn [fst snd].
      assert (Hsn : PrimFloat.is_nan s = false) by exact (ltb_not_nan_r _ _ Hlt).
      destruct IH as [[-> Hnone] | (i0 & Hi0 & Hidx & Hfree & Hval & Hpos & Hmax)].
      * cbn [fst] in Hlt. repeat split; auto.
        intros i Hi Hfree Hn.
        destruct (Nat.eq_dec i k) as [-> | Hne]; [apply leb_refl; exact Hn |].
        apply (leb_trans _ (-1)); [| apply ltb_leb; exact Hlt].
        apply ltb_false_leb; [reflexivity | exact Hn | apply Hnone; [lia | exact Hfree]].
      * repeat split; auto.
        -- exact (ltb_trans _ _ _ Hpos Hlt).
        -- intros i Hi Hfree' Hn.
           destruct (Nat.eq_dec i k) as [-> | Hne]; [apply leb_refl; exact Hn |].
           apply (leb_trans _ (fst best)); [apply Hmax; auto; lia | apply ltb_leb; exact Hlt].
    + (* reference k does not beat the best *)
      destruct IH as [[-> Hnone] | (i0 & Hi0 & Hidx & Hfree & Hval & Hpos & Hmax)].
      * left. split; [reflexivity |]. intros i Hi Hfree.
        destruct (Nat.eq_dec i k) as [-> | Hne]; [exact Hlt | apply Hnone; [lia | exact Hfree]].
      * right. exists i0. repeat split; auto.
        intros i Hi Hfree' Hn.
        destruct (Nat.eq_dec i k) as [-> | Hne]; [| apply Hmax; auto; lia].
        apply ltb_false_leb; [exact (ltb_not_nan_r _ _ Hpos) | exact Hn | exact Hlt].
Qed.

Lemma best_match_fold (sim_matrix : matrix) (used_indices : list Z) (j k : nat) :
  best_so_far sim_matrix used_indices j k
    (fold_left
       (fun best i =>
          let s := nth j (nth i sim_matrix []) 0 in
          if negb (existsb (Z.eqb (Z.of_nat i)) used_indices) && (fst best <? s)
          then (s, Z.of_nat i) else best)
       (seq 0 k) ((-1)%float, (-1)%Z)).
Proof.
  induction k as [| k IH].
  - left. split; [reflexivity |]. intros i Hi. lia.
  - rewrite seq_S, fold_left_app. cbn [fold_left Nat.add].
    exact (best_match_step sim_matrix used_indices j k _ IH).
Qed.

Lemma best_match_picks_highest_unused_aux (sim_matrix : matrix) (used_indices : list Z)
  (j : nat) :
  best_so_far sim_matrix used_indices j (length sim_matrix)
    (best_match sim_matrix used_indices j).
Proof. unfold best_match. apply best_match_fold. Qed.

(** X5. The inner loop of [compare_segments] picks, for a query segment, an
    unused reference segment whose score is above -1 and which no unused
    reference segment with a number as score beats; it picks none (index -1)
    exactly when no unused reference scores above -1. *)
Theorem best_match_picks_highest_unused (sim_matrix : matrix) (used_indices : list Z)
  (j : nat) :
  best_so_far sim_matrix used_indices j (length sim_matrix)
    (best_match sim_matrix used_indices j).
Proof. unfold best_match. apply best_match_fold. Qed.

(** The state of the outer loop after [k] query segments. *)
Lemma greedy_matches_fold (sim_matrix : matrix) (k : nat) :
  let st :=
    fold_left
      (fun (st : list Z * list float) j =>
         let '(best_sim, best_idx) := best_match sim_matrix (fst st) j in
         if (0 <=? best_idx)%Z then (best_idx :: fst st, snd st ++ [best_sim]) else st)
      (seq 0 k) ([], []) in
  NoDup (fst st)
  /\ Forall (fun z => (0 <= z < Z.of_nat (length sim_matrix))%Z) (fst st)
  /\ length (snd st) = length (fst st)
  /\ (length (fst st) <= k)%nat
  /\ Forall (fun s => (-1 <? s) = true) (snd st)
  /\ ((k <= length sim_matrix)%nat ->
      (forall i j, (i < length sim_matrix)%nat -> (j < k)%nat ->
                   (-1 <? sim_entry sim_matrix i j) = true) ->
      length (fst st) = k).
Proof.
  induction k as [| k IH]; cbv zeta.
  - cbn. repeat split; try constructor; auto.
  - cbv zeta in IH. rewrite seq_S, fold_left_app. cbn [fold_left Nat.add].
    set (st := fold_left _ (seq 0 k) ([], [])) in *.
    destruct IH as (Hnd & Hrange & Hlen & Hk & Hpos & Hfull).
    pose proof (best_match_picks_highest_unused_aux sim_matrix (fst st) k) as Hbest.
    destruct (best_match sim_matrix (fst st) k) as [best_sim best_idx].
    destruct Hbest as [[E Hnone] | (i0 & Hi0 & Hidx & Hfree & Hval & Hgt & Hmax)].
    + injection E as -> ->. change ((0 <=? -1)%Z) with false. cbv iota.
      repeat split; auto.
      intros Hle Hall. exfalso.
      assert (Hk' : length (fst st) = k)
        by (apply Hfull; [lia | intros i j Hi Hj; apply Hall; [exact Hi | lia]]).
      assert (Hincl : incl (map Z.of_nat (seq 0 (length sim_matrix))) (fst st)).
      { intros z Hz. apply in_map_iff in Hz. destruct Hz as (i & <- & Hi).
        apply in_seq in Hi.
        destruct (in_dec Z.eq_dec (Z.of_nat i) (fst st)) as [Hin | Hnin]; [exact Hin |].
        specialize (Hnone i ltac:(lia) Hnin).
        rewrite (Hall i k ltac:(lia) ltac:(lia)) in Hnone. discriminate. }
      apply NoDup_incl_length in Hincl.
      * rewrite length_map, length_seq in Hincl. lia.
      * apply NoDup_map_of_nat, seq_NoDup.
    + cbn [fst snd] in Hidx, Hval, Hgt. subst best_idx.
      assert (Hz : (0 <=? Z.of_nat i0)%Z = true) by (apply Z.leb_le; lia).
      rewrite Hz. cbn [fst snd]. repeat split.
      * constructor; assumption.
      * constructor; [lia | exact Hrange].
      * rewrite length_app. simpl. lia.
      * simpl. lia.
      * apply Forall_app. split; [exact Hpos |]. constructor; [exact Hgt | constructor].
      * intros Hle Hall. simpl. f_equal.
        apply Hfull; [lia | intros i j Hi Hj; apply Hall; [exact Hi | lia]].
Qed.

End Greedy.

Section GreedyPairs.

Lemma NoDup_snoc {A} (l : list A) (x : A) : NoDup l -> ~ In x l -> NoDup (l ++ [x]).
Proof.
  intros Hl Hx. induction Hl as [| y l Hy Hl IH]; simpl.
  - constructor; [intros [] | constructor].
  - constructor.
    + intros Hin. apply in_app_or in Hin. destruct Hin as [Hin | [-> | []]].
      * contradiction.
      * apply Hx. left. reflexivity.
    + apply IH. intros Hin. apply Hx. right. exact Hin.
Qed.

(** The outer loop pairs query segments with reference segments: the scores
    it collects are the entries of the matrix at the chosen pairs. *)
Lemma greedy_matches_pairs (sim_matrix : matrix) (k : nat) :
  let st :=
    fold_left
      (fun (st : list Z * list float) j =>
         let '(best_sim, best_idx) := best_match sim_matrix (fst st) j in
         if (0 <=? best_idx)%Z then (best_idx :: fst st, snd st ++ [best_sim]) else st)
      (seq 0 k) ([], []) in
  exists pairs : list (nat * nat),
    snd st = map (fun p => sim_entry sim_matrix (fst p) (snd p)) pairs
    /\ rev (fst st) = map (fun p => Z.of_nat (fst p)) pairs
    /\ NoDup (map fst pairs) /\ NoDup (map snd pairs)
    /\ Forall (fun p => (fst p < length sim_matrix)%nat /\ (snd p < k)%nat) pairs.
Proof.
  induction k as [| k IH]; cbv zeta.
  - exists []. cbn. repeat split; constructor.
  - cbv zeta in IH. rewrite seq_S, fold_left_app. cbn [fold_left Nat.add].
    set (st := fold_left _ (seq 0 k) ([], [])) in *.
    destruct IH as (pairs & Hsims & Hused & Hnd1 & Hnd2 & Hbound).
    pose proof (best_match_picks_highest_unused_aux sim_matrix (fst st) k) as Hbest.
    destruct (best_match sim_matrix (fst st) k) as [best_sim best_idx].
    destruct Hbest as [[E Hnone] | (i0 & Hi0 & Hidx & Hfree & Hval & Hgt & Hmax)].
    + injection E as -> ->. change ((0 <=? -1)%Z) with false. cbv iota.
      exists pairs. repeat split; auto.
      eapply Forall_impl; [| exact Hbound]. cbn beta. intros p [H1 H2]. split; lia.
    + cbn [fst snd] in Hidx, Hval, Hgt. subst best_idx best_sim.
      assert (Hz : (0 <=? Z.of_nat i0)%Z = true) by (apply Z.leb_le; lia).
      rewrite Hz. cbn [fst snd].
      exists (pairs ++ [(i0, k)]). rewrite !map_app. cbn [map fst snd].
      split; [rewrite Hsims; reflexivity |].
      split; [cbn [rev]; rewrite Hused; reflexivity |].
      split; [| split].
      * apply NoDup_snoc; [exact Hnd1 |]. intros Hin. apply Hfree.
        apply in_rev. rewrite Hused. apply in_map_iff in Hin.
        destruct Hin as (p & Hp & Hin). apply in_map_iff. exists p. split; [congruence | exact Hin].
      * apply NoDup_snoc; [exact Hnd2 |]. intros Hin. apply in_map_iff in Hin.
        destruct Hin as (p & Hp & Hin). rewrite Forall_forall in Hbound.
        destruct (Hbound p Hin) as [_ Hlt]. lia.
      * apply Forall_app. split.
        -- eapply Forall_impl; [| exact Hbound]. cbn beta. intros p [H1 H2]. split; lia.
        -- constructor; [cbn; split; lia | constructor].
Qed.

End GreedyPairs.

Section SegmentsMore.
Context {NP : Numpy} {DTW : FastDTW}.

(** X6. The greedy matching uses every reference segment at most once: the
    chosen indices are distinct and within the similarity matrix, there is
    one score per chosen index, at most one per query segment, and every
    score is above -1.  When there are at least as many references as
    queries and every entry of the matrix is above -1, every query segment
    gets its match. *)
Theorem greedy_matching_is_injective (sim_matrix : matrix) (n_query : nat) :
  let used_indices := fst (greedy_matches sim_matrix n_query) in
  let similarities := snd (greedy_matches sim_matrix n_query) in
  NoDup used_indices
  /\ Forall (fun z => (0 <= z < Z.of_nat (length sim_matrix))%Z) used_indices
  /\ length similarities = length used_indices
  /\ (length similarities <= n_query)%nat
  /\ Forall (fun s => (-1 <? s) = true) similarities
  /\ ((n_query <= length sim_matrix)%nat ->
      (forall i j, (i < length sim_matrix)%nat -> (j < n_query)%nat ->
                   (-1 <? sim_entry sim_matrix i j) = true) ->
      length similarities = n_query).
Proof.
  cbv zeta. unfold greedy_matches.
  destruct (greedy_matches_fold sim_matrix n_query) as (H1 & H2 & H3 & H4 & H5 & H6).
  cbv zeta in *. repeat split; auto; try lia.
  intros Hle Hall. rewrite H3. apply H6; assumption.
Qed.

Lemma np_dot_value (a b : vec) (log : list call) (v : float) (log' : list call) :
  np_dot a b log = (Ok v, log') -> v = np_inner a b.
Proof.
  unfold np_dot, bind, tick, ret, raise.
  destruct (Nat.eqb (length a) (length b)); [| discriminate].
  intros H. injection H as <- _. reflexivity.
Qed.

Lemma mapM_value {A B} (f : A -> M B) (g : A -> B) (l : list A) :
  (forall x log y log', f x log = (Ok y, log') -> y = g x) ->
  forall log ys log', mapM f l log = (Ok ys, log') -> ys = map g l.
Proof.
  intros Hf. induction l as [| x tl IH]; intros log ys log'; cbn [mapM map].
  - unfold ret. intros H. injection H as <- _. reflexivity.
  - unfold bind.
    destruct (f x log) as [[y | e] l1] eqn:Hy; [| discriminate].
    destruct (mapM f tl l1) as [[ys' | e] l2] eqn:Hys; [| discriminate].
    unfold ret. intros H. injection H as <- _.
    rewrite (Hf _ _ _ _ Hy), (IH _ _ _ Hys). reflexivity.
Qed.

Lemma sim_matrix_value (reference query : list vec) (log : list call) (sim_matrix : matrix)
  (log' : list call) :
  mapM (fun ref_seg => mapM (fun q_seg => segment_cosine ref_seg q_seg) query) reference log
  = (Ok sim_matrix, log') ->
  sim_matrix = cosine_matrix reference query.
Proof.
  apply (mapM_value _ (fun ref_seg => map (cosine_of ref_seg) query)).
  intros ref_seg l0 row l1.
  apply (mapM_value _ (cosine_of ref_seg)).
  intros q_seg l2 v l3. unfold segment_cosine, cosine_of. apply np_dot_value.
Qed.

Lemma cosine_matrix_entry (reference query : list vec) (i j : nat) :
  (i < length reference)%nat -> (j < length query)%nat ->
  sim_entry (cosine_matrix reference query) i j
  = cosine_of (nth i reference []) (nth j query []).
Proof.
  intros Hi Hj. unfold sim_entry, cosine_matrix.
  rewrite (nth_indep _ [] (map (cosine_of []) query)) by (rewrite length_map; exact Hi).
  rewrite (map_nth (fun ref_seg => map (cosine_of ref_seg) query)).
  rewrite (nth_indep _ 0 (cosine_of (nth i reference []) [])) by (rewrite length_map; exact Hj).
  rewrite (map_nth (cosine_of (nth i reference []))). reflexivity.
Qed.

Lemma cosine_matrix_length (reference query : list vec) :
  length (cosine_matrix reference query) = length reference.
Proof. apply length_map. Qed.

(** The scores of the greedy matching are the cosines of a matching of the
    reference and the query segments. *)
Lemma greedy_matches_scores (reference query : list vec) :
  exists pairs,
    snd (greedy_matches (cosine_matrix reference query) (length query))
    = pair_scores reference query pairs
    /\ matching (length reference) (length query) pairs.
Proof.
  destruct (greedy_matches_pairs (cosine_matrix reference query) (length query))
    as (pairs & Hsims & _ & Hnd1 & Hnd2 & Hbound).
  cbv zeta in Hsims. fold (greedy_matches (cosine_matrix reference query) (length query)) in Hsims.
  rewrite cosine_matrix_length in Hbound.
  exists pairs. split; [| repeat split; assumption].
  rewrite Hsims. unfold pair_scores. apply map_ext_in. intros p Hp.
  rewrite Forall_forall in Hbound. destruct (Hbound p Hp) as [H1 H2].
  apply cosine_matrix_entry; assumption.
Qed.

Lemma compare_segments_inv (segments1 segments2 : list vec) (log : list call) (v : float)
  (log' : list call) :
  compare_segments segments1 segments2 log = (Ok v, log') ->
  let similarities :=
    snd (greedy_matches
           (cosine_matrix (reference_of segments1 segments2) (query_of segments1 segments2))
           (length (query_of segments1 segments2))) in
  v = match segments1, segments2 with
      | [], _ | _, [] => 0
      | _, _ => match similarities with [] => 0 | _ => np_mean similarities end
      end.
Proof.
  unfold compare_segments, bind, tick, reference_of, query_of.
  destruct segments1 as [| a1 t1]; [unfold ret; intros H; injection H as <- _; reflexivity |].
  destruct segments2 as [| a2 t2]; [unfold ret; intros H; injection H as <- _; reflexivity |].
  destruct (Nat.leb (length (a2 :: t2)) (length (a1 :: t1))).
  - destruct (mapM _ (a1 :: t1) _) as [[m | e] l1] eqn:Hm; [| discriminate].
    apply sim_matrix_value in Hm. subst m. cbv zeta.
    destruct (snd (greedy_matches _ _)); unfold ret; intros H; injection H as <- _; reflexivity.
  - destruct (mapM _ (a2 :: t2) _) as [[m | e] l1] eqn:Hm; [| discriminate].
    apply sim_matrix_value in Hm. subst m. cbv zeta.
    destruct (snd (greedy_matches _ _)); unfold ret; intros H; injection H as <- _; reflexivity.
Qed.

(** X7. The value [compare_segments] returns is determined by the segments:
    0.0 when a list is empty, otherwise the value of the greedy matching on
    the matrix of the cosines of every reference with every query segment
    (the longer list is the reference).  That value is 0.0 when nothing is
    matched and otherwise the mean of the cosines of the matched pairs: at
    least one and at most [min(len(segments1), len(segments2))] pairs, no
    segment in two pairs, every cosine above -1 and none NaN. *)
Theorem compare_segments_value (segments1 segments2 : list vec) (log : list call)
  (v : float) (log' : list call) :
  compare_segments segments1 segments2 log = (Ok v, log') ->
  let reference := reference_of segments1 segments2 in
  let query := query_of segments1 segments2 in
  let similarities :=
    snd (greedy_matches (cosine_matrix reference query) (length query)) in
  (segments1 = [] \/ segments2 = [] -> v = 0)
  /\ (segments1 <> [] -> segments2 <> [] ->
      v = match similarities with [] => 0 | _ => np_mean similarities end)
  /\ exists pairs,
       similarities = pair_scores reference query pairs
       /\ matching (length reference) (length query) pairs
       /\ (length pairs <= Nat.min (length segments1) (length segments2))%nat
       /\ Forall (fun s => (-1 <? s) = true /\ PrimFloat.is_nan s = false) similarities.
Proof.
  intros H. cbv zeta. pose proof (compare_segments_inv _ _ _ _ _ H) as Hv. cbv zeta in Hv.
  split; [| split].
  - intros [-> | ->]; [exact Hv | destruct segments1; exact Hv].
  - intros H1 H2. destruct segments1; [congruence |]. destruct segments2; [congruence |].
    exact Hv.
  - destruct (greedy_matches_scores (reference_of segments1 segments2)
                (query_of segments1 segments2)) as (pairs & Hscores & Hmatching).
    exists pairs. split; [exact Hscores |]. split; [exact Hmatching |].
    destruct (greedy_matches_fold
                (cosine_matrix (reference_of segments1 segments2) (query_of segments1 segments2))
                (length (query_of segments1 segments2))) as (_ & _ & _ & Hk & Hpos & _).
    cbv zeta in Hk, Hpos.
    fold (greedy_matches
            (cosine_matrix (reference_of segments1 segments2) (query_of segments1 segments2))
            (length (query_of segments1 segments2))) in Hk, Hpos.
    split.
    + assert (Hlen : length pairs
                     = length (snd (greedy_matches
                         (cosine_matrix (reference_of segments1 segments2)
                            (query_of segments1 segments2))
                         (length (query_of segments1 segments2)))))
        by (rewrite Hscores; unfold pair_scores; now rewrite length_map).
      destruct (greedy_matches_fold
                  (cosine_matrix (reference_of segments1 segments2)
                     (query_of segments1 segments2))
                  (length (query_of segments1 segments2))) as (_ & _ & Hl & Hk' & _).
      cbv zeta in Hl, Hk'.
      fold (greedy_matches
              (cosine_matrix (reference_of segments1 segments2) (query_of segments1 segments2))
              (length (query_of segments1 segments2))) in Hl, Hk'.
      rewrite Hlen, Hl. unfold query_of in *.
      destruct (Nat.leb (length segments2) (length segments1)) eqn:Hle.
      * apply Nat.leb_le in Hle. lia.
      * apply Nat.leb_gt in Hle. lia.
    + eapply Forall_impl; [| exact Hpos]. intros s0 Hs. split; [exact Hs |].
      exact (ltb_not_nan_r _ _ Hs).
Qed.

(** X8. When the two lists have different lengths the longer one is the
    reference whichever comes first, so [compare_segments] does not depend
    on the order of its arguments. *)
Theorem compare_segments_symmetric (segments1 segments2 : list vec) (log : list call) :
  length segments1 <> length segments2 ->
  compare_segments segments1 segments2 log = compare_segments segments2 segments1 log.
Proof.
  intros Hne. unfold compare_segments, bind, tick.
  destruct segments1 as [| a1 t1], segments2 as [| a2 t2]; try reflexivity.
  destruct (Nat.leb (length (a2 :: t2)) (length (a1 :: t1))) eqn:H21;
    destruct (Nat.leb (length (a1 :: t1)) (length (a2 :: t2))) eqn:H12;
    try reflexivity.
  - apply Nat.leb_le in H21, H12. lia.
  - apply Nat.leb_gt in H21, H12. lia.
Qed.

Lemma compare_segments_raises (a b : vec) (t1 t2 : list vec) (log : list call) :
  length a <> length b ->
  compare_segments (a :: t1) (b :: t2) log
  = (Raise ValueError, (log ++ [call_compare_segments]) ++ [call_np_dot]).
Proof.
  intros Hne. unfold compare_segments, bind, tick.
  destruct (Nat.leb (length (b :: t2)) (length (a :: t1))); cbn [mapM]; unfold bind;
    unfold segment_cosine; rewrite np_dot_raises; try reflexivity;
    rewrite !length_map; congruence.
Qed.

(** X9. Segment descriptors of different dimensions are an error that the
    matcher does not absorb: with the first descriptors of the two samples of
    different lengths, a pair that passed Stage 1 and went through the
    alignment of Stage 2 ends in [ValueError], raised by the first [np.dot]
    of [compare_segments]. *)
Theorem segment_dimension_mismatch_raises (sample1 sample2 : sample) (log : list call)
  (a b : vec) (t1 t2 : list vec) :
  length (feature_vector sample1) = length (feature_vector sample2) ->
  (stage1_cosine sample1 sample2 <? 0.5) = false ->
  segments sample1 = Some (a :: t1) ->
  segments sample2 = Some (b :: t2) ->
  length a <> length b ->
  two_stage_matcher sample1 sample2 log =
    (Raise ValueError,
     (snd (stage2_alignment sample1 sample2 log) ++ [call_compare_segments])
       ++ [call_np_dot]).
Proof.
  intros E Hc H1 H2 Hne.
  pose proof (two_stage_matcher_full sample1 sample2 log E Hc) as Hfull.
  cbv zeta in Hfull. unfold both_have_segments, get_segments in Hfull.
  rewrite H1, H2 in Hfull. cbn [truthy andb] in Hfull.
  rewrite (compare_segments_raises a b t1 t2 _ Hne) in Hfull. exact Hfull.
Qed.

(** X10. Every result of the matcher has one of two shapes.  Either it is
    the short result: method ["cosine_only"], stage 1, a similarity below 0.5
    and no other score.  Or it is the full result: method ["full"], the
    Stage-1 score (not below 0.5) and the Stage-2 score present, and stage 2
    without [segment_similarity] or stage 3 with a positive
    [segment_similarity] and the blended similarity. *)
Theorem result_is_short_or_full (sample1 sample2 : sample) (log : list call)
  (r : match_result) (log' : list call) :
  two_stage_matcher sample1 sample2 log = (Ok r, log') ->
  cosine_only_result r \/ full_result r.
Proof.
  intros H.
  destruct (Nat.eq_dec (length (feature_vector sample1)) (length (feature_vector sample2)))
    as [E | Hne]; [| rewrite (two_stage_matcher_raises _ _ _ Hne) in H; discriminate].
  destruct (stage1_cosine sample1 sample2 <? 0.5) eqn:Hc.
  - left. revert H. unfold two_stage_matcher. unfold bind at 1.
    rewrite (calculate_similarity_cosine _ _ _ _ E).
    fold (stage1_cosine sample1 sample2). rewrite Hc. unfold ret.
    intros H. injection H as <- _. unfold cosine_only_result. cbn. auto 10.
  - right. pose proof (two_stage_matcher_full sample1 sample2 log E Hc) as Hfull.
    cbv zeta in Hfull. rewrite H in Hfull.
    set (c := stage1_cosine sample1 sample2) in *.
    set (combined := stage2_combined c (fst (stage2_alignment sample1 sample2 log))) in *.
    destruct (both_have_segments sample1 sample2).
    + destruct (compare_segments _ _ _) as [[sg | e] log3]; [| discriminate].
      injection Hfull as -> _. unfold full_result. cbn. split; [reflexivity |].
      exists c, combined. repeat split; auto.
      destruct (0 <? sg) eqn:Hsg; [right | left]; repeat split.
      exists sg. auto.
    + injection Hfull as -> _. unfold full_result. cbn. split; [reflexivity |].
      exists c, combined. repeat split; auto.
Qed.

(** X11. A Stage-1 score that is NaN is not below 0.5, so the pair is not
    short-circuited: the matcher goes through Stage 2 and every result it
    returns has method ["full"] and the similarity NaN. *)
Theorem nan_cosine_runs_full_cascade (sample1 sample2 : sample) (log : list call)
  (r : match_result) (log' : list call) :
  length (feature_vector sample1) = length (feature_vector sample2) ->
  stage1_cosine sample1 sample2 = nan ->
  two_stage_matcher sample1 sample2 log = (Ok r, log') ->
  method r = "full"%string
  /\ cosine_similarity r = Some nan
  /\ dtw_similarity r = Some nan
  /\ similarity r = nan.
Proof.
  intros E Hnan H.
  assert (Hc : (stage1_cosine sample1 sample2 <? 0.5) = false) by (rewrite Hnan; reflexivity).
  pose proof (two_stage_matcher_full sample1 sample2 log E Hc) as Hfull.
  cbv zeta in Hfull. rewrite H, Hnan in Hfull.
  assert (Hcomb : stage2_combined nan (fst (stage2_alignment sample1 sample2 log)) = nan).
  { unfold stage2_combined.
    destruct (fst (stage2_alignment sample1 sample2 log)) as [d | e]; [| reflexivity].
    rewrite ?mul_nan_r, ?add_nan_l. reflexivity. }
  rewrite Hcomb in Hfull.
  destruct (both_have_segments sample1 sample2).
  - destruct (compare_segments _ _ _) as [[sg | e] log3]; [| discriminate].
    injection Hfull as -> _. cbn [method cosine_similarity dtw_similarity similarity].
    rewrite ?mul_nan_r, ?add_nan_l. auto.
  - injection Hfull as -> _. cbn [method cosine_similarity dtw_similarity similarity]. auto.
Qed.

End SegmentsMore.

Lemma compare_segments_value_witness :
  1 = seq_mean (pair_scores (NP := seq_numpy) [[3; 4]; [1; 0]] [[1; 0]] [(1%nat, 0%nat)])
  /\ matching 2 1 [(1%nat, 0%nat)].
Proof.
  destruct (@compare_segments_value seq_numpy [[3; 4]; [1; 0]] [[1; 0]] [] 1
              [call_compare_segments; call_np_dot; call_np_dot]
              ltac:(vm_compute; reflexivity)) as (_ & Hv & _).
  split; [exact (Hv ltac:(discriminate) ltac:(discriminate)) |].
  unfold matching. cbn. repeat split; repeat constructor; auto; intros [H | []]; discriminate.
Defined.

Lemma compare_segments_symmetric_witness :
  compare_segments (NP := seq_numpy) [[3; 4]; [1; 0]] [[1; 0]] []
  = compare_segments (NP := seq_numpy) [[1; 0]] [[3; 4]; [1; 0]] [].
Proof.
  exact (@compare_segments_symmetric seq_numpy [[3; 4]; [1; 0]] [[1; 0]] []
           ltac:(simpl; discriminate)).
Defined.

Lemma segment_dimension_mismatch_raises_witness :
  two_stage_matcher (NP := seq_numpy) (DTW := exact_dtw) sample_x sample_three_dim_segment []
  = (Raise ValueError,
     [call_np_dot; call_np_dot; call_fastdtw; call_compare_segments; call_np_dot]).
Proof.
  exact (@segment_dimension_mismatch_raises seq_numpy exact_dtw sample_x
           sample_three_dim_segment [] [1; 0] [1; 0; 0] [] []
           eq_refl eq_refl eq_refl eq_refl ltac:(simpl; discriminate)).
Defined.

Lemma result_is_short_or_full_witness :
  cosine_only_result
    {| similarity := 0; cosine_similarity := None; dtw_similarity := None;
       segment_similarity := None; method := "cosine_only"; stage := 1 |}
  \/ full_result
       {| similarity := 0; cosine_similarity := None; dtw_similarity := None;
          segment_similarity := None; method := "cosine_only"; stage := 1 |}.
Proof.
  exact (@result_is_short_or_full seq_numpy exact_dtw sample_low_a sample_low_b [] _
           [call_np_dot] ltac:(vm_compute; reflexivity)).
Defined.

Lemma nan_cosine_runs_full_cascade_witness :
  exists r log',
    two_stage_matcher (NP := seq_numpy) (DTW := exact_dtw) sample_nan sample_nan []
    = (Ok r, log')
    /\ method r = "full"%string /\ similarity r = nan.
Proof.
  eexists. eexists. split; [vm_compute; reflexivity |].
  destruct (@nan_cosine_runs_full_cascade seq_numpy exact_dtw sample_nan sample_nan [] _ _
              eq_refl eq_refl ltac:(vm_compute; reflexivity)) as (Hm & _ & _ & Hs).
  split; [exact Hm | exact Hs].
Defined.

Section PauseMore.
Context {NP : Numpy} {LR : Librosa}.

Lemma run_lengths_from_sum (current : nat) (is_pause : list bool) :
  list_sum (run_lengths_from current is_pause) = (current + pause_frames is_pause)%nat.
Proof.
  unfold pause_frames. revert current.
  induction is_pause as [| b tl IH]; intros current; simpl.
  - destruct (Nat.ltb 0 current) eqn:Hc; simpl; [lia |].
    apply Nat.ltb_ge in Hc. lia.
  - destruct b; simpl.
    + rewrite IH. lia.
    + destruct (Nat.ltb 0 current) eqn:Hc; simpl; rewrite IH; [lia |].
      apply Nat.ltb_ge in Hc. lia.
Qed.

Lemma run_lengths_from_count (current : nat) (is_pause : list bool) :
  (2 * length (run_lengths_from current is_pause)
   <= length is_pause + (if Nat.ltb 0 current then 2 else 1))%nat.
Proof.
  revert current. induction is_pause as [| b tl IH]; intros current; simpl.
  - destruct (Nat.ltb 0 current); simpl; lia.
  - destruct b.
    + specialize (IH (S current)). simpl in IH. destruct (Nat.ltb 0 current); lia.
    + specialize (IH 0%nat). simpl in IH. destruct (Nat.ltb 0 current); simpl; lia.
Qed.

(** X12. The pause lengths [extract_pause_patterns] collects account for
    every pause frame exactly once: each length is positive, the lengths add
    up to the number of frames below the threshold, and an envelope of [n]
    frames has at most [(n + 1) / 2] pauses. *)
Theorem pause_lengths_partition_pause_frames (is_pause : list bool) :
  Forall (fun n => (0 < n)%nat) (pause_runs is_pause)
  /\ list_sum (pause_runs is_pause) = pause_frames is_pause
  /\ (2 * length (pause_runs is_pause) <= length is_pause + 1)%nat.
Proof.
  rewrite pause_runs_run_lengths. unfold run_lengths. repeat split.
  - apply run_lengths_from_positive.
  - apply run_lengths_from_sum.
  - exact (run_lengths_from_count 0 is_pause).
Qed.

Lemma run_lengths_no_pause (is_pause : list bool) :
  Forall (fun b => b = false) is_pause -> run_lengths_from 0 is_pause = [].
Proof. induction 1 as [| b tl -> _ IH]; simpl; auto. Qed.

Lemma np_max_step_nan_acc (l : vec) (acc : float) :
  PrimFloat.is_nan acc = true -> fold_left np_max_step l acc = acc.
Proof.
  revert acc. induction l as [| x tl IH]; intros acc H; simpl; [reflexivity |].
  unfold np_max_step at 2. rewrite H. apply IH, H.
Qed.

Lemma fold_np_max_nan (l : vec) (acc : float) :
  existsb PrimFloat.is_nan (acc :: l) = true ->
  PrimFloat.is_nan (fold_left np_max_step l acc) = true.
Proof.
  revert acc. induction l as [| x tl IH]; intros acc H; simpl in *.
  - now rewrite orb_false_r in H.
  - destruct (PrimFloat.is_nan acc) eqn:Ha.
    + apply IH. unfold np_max_step. rewrite Ha. simpl. now rewrite Ha.
    + simpl in H. apply IH. unfold np_max_step. rewrite Ha.
      destruct (PrimFloat.is_nan x) eqn:Hx; simpl; [now rewrite Hx |].
      simpl in H. destruct (acc <? x); simpl; rewrite ?Hx, ?Ha; exact H.
Qed.

Lemma fold_np_max_zero (l : vec) (acc : float) :
  PrimFloat.is_zero acc = true -> forallb PrimFloat.is_zero l = true ->
  PrimFloat.is_zero (fold_left np_max_step l acc) = true.
Proof.
  revert acc. induction l as [| x tl IH]; intros acc Ha Hl; simpl in *; [exact Ha |].
  apply andb_prop in Hl. destruct Hl as [Hx Htl]. apply IH; [| exact Htl].
  destruct (is_zero_cases _ Ha) as [-> | ->], (is_zero_cases _ Hx) as [-> | ->]; reflexivity.
Qed.

Lemma ltb_nan_r (x : float) : (x <? nan) = false.
Proof.
  destruct (x <? nan) eqn:H; [| reflexivity].
  apply ltb_not_nan_r in H. discriminate.
Qed.

Lemma extract_pause_patterns_no_pause (y : signal) (sr : Z) (rms_max : float) :
  let rms := librosa_feature_rms y (py_int (of_Z sr * 0.01)) in
  np_max rms = Ok rms_max ->
  Forall (fun e => (e <? pause_threshold rms_max) = false) rms ->
  extract_pause_patterns y sr = Ok [0; 0; 0; 0].
Proof.
  cbv zeta. intros Hmax Hall. unfold extract_pause_patterns. cbv zeta.
  rewrite Hmax. unfold rbind. rewrite pause_runs_run_lengths. unfold run_lengths.
  rewrite run_lengths_no_pause; [reflexivity |].
  apply Forall_map. exact Hall.
Qed.

(** X13. Digital silence has no pause: when every frame of the energy
    envelope is zero, or when a frame of it is NaN, no frame is below the
    threshold [0.05 * max] and the four pause features are all zero (under
    either promotion rule of numpy). *)
Theorem flat_envelope_has_no_pause (y : signal) (sr : Z) :
  let rms := librosa_feature_rms y (py_int (of_Z sr * 0.01)) in
  rms <> [] ->
  is_zero_vec rms = true \/ existsb PrimFloat.is_nan rms = true ->
  extract_pause_patterns y sr = Ok [0; 0; 0; 0].
Proof.
  cbv zeta. intros Hne Hflat.
  destruct (librosa_feature_rms y (py_int (of_Z sr * 0.01))) as [| x tl] eqn:Hrms;
    [congruence |].
  apply (extract_pause_patterns_no_pause y sr (fold_left np_max_step tl x));
    rewrite Hrms; [reflexivity |].
  destruct Hflat as [Hz | Hn].
  - unfold is_zero_vec in Hz. simpl in Hz. apply andb_prop in Hz. destruct Hz as [Hx Htl].
    pose proof (fold_np_max_zero tl x Hx Htl) as Hm.
    assert (Hall : forallb PrimFloat.is_zero (x :: tl) = true)
      by (simpl; now rewrite Hx, Htl).
    apply Forall_forall. intros e He.
    rewrite forallb_forall in Hall. specialize (Hall e He).
    unfold pause_threshold.
    destruct np_weak_scalars, (is_zero_cases _ Hm) as [-> | ->],
      (is_zero_cases _ Hall) as [-> | ->]; reflexivity.
  - pose proof (fold_np_max_nan tl x Hn) as Hm. apply is_nan_eq in Hm. rewrite Hm.
    assert (Hthreshold : pause_threshold nan = nan).
    { unfold pause_threshold. destruct np_weak_scalars; rewrite mul_nan_r; reflexivity. }
    rewrite Hthreshold. apply Forall_forall. intros e _. apply ltb_nan_r.
Qed.

Lemma extract_formants_columns {LL : LibrosaLaws} (y : signal) (n_formants : nat) :
  Forall (fun row => length row = formant_frames (length y))
    (extract_formants y sr_load n_formants).
Proof.
  unfold extract_formants, sr_load.
  change (py_int (of_Z 22050 * 0.025)) with 551%Z.
  change (py_int (of_Z 22050 * 0.01)) with 220%Z.
  cbv zeta. rewrite preemphasis_length.
  apply Forall_forall. intros row Hrow. apply in_map_iff in Hrow.
  destruct Hrow as (j & <- & _). rewrite length_map. unfold py_range.
  rewrite length_map, length_seq. unfold formant_frames. f_equal. f_equal. lia.
Qed.

(** X14. At 22050 Hz the formant tracks are a matrix of [n_formants] rows
    and one column per frame of 551 samples taken every 220 samples:
    [ceil((n - 551) / 220)] columns for a buffer of [n] samples, none for a
    buffer of at most 551 samples. *)
Theorem formant_tracks_shape {LL : LibrosaLaws} (y : signal) (n_formants : nat) :
  has_shape n_formants (formant_frames (length y)) (extract_formants y sr_load n_formants).
Proof.
  unfold has_shape. split; [apply extract_formants_rows | apply extract_formants_columns].
Qed.

End PauseMore.

Lemma flat_envelope_has_no_pause_witness :
  extract_pause_patterns (NP := seq_numpy) (LR := toy_librosa silence) (repeat 0 2205) 22050
  = Ok [0; 0; 0; 0].
Proof.
  apply (@flat_envelope_has_no_pause seq_numpy (toy_librosa silence) (repeat 0 2205) 22050).
  - simpl. discriminate.
  - left. vm_compute. reflexivity.
Defined.

Lemma formant_tracks_shape_witness :
  has_shape 3 3
    (extract_formants (LR := toy_librosa one_pause) (repeat 1 1100) sr_load 3).
Proof.
  exact (@formant_tracks_shape (toy_librosa one_pause)
           (toy_librosa_laws one_pause ltac:(simpl; discriminate)) (repeat 1 1100) 3).
Defined.

Section SequenceMore.
Context {NP : Numpy} {NS : NumpySum}.

Lemma skipn_repeat (x : float) (k n : nat) : skipn k (repeat x n) = repeat x (n - k).
Proof.
  revert k. induction n as [| n IH]; intros k; simpl.
  - now rewrite skipn_nil.
  - destruct k; simpl; [reflexivity | apply IH].
Qed.

Lemma assign_prefix_copy (bound : nat) (values row : vec) :
  length values = Nat.min bound (length row) ->
  assign_prefix bound values row = Ok (values ++ skipn (length values) row).
Proof.
  intros H. unfold assign_prefix. rewrite <- H, Nat.eqb_refl. reflexivity.
Qed.

Lemma assign_block_zeros (bound n k : nat) (values : matrix) :
  Forall (fun v => length v = n) values -> (n <= bound)%nat ->
  assign_block bound values (zeros (length values + k) n) = Ok (values ++ zeros k n).
Proof.
  intros Hall Hle. induction Hall as [| v vs Hv _ IH]; simpl.
  - reflexivity.
  - unfold zeros in *. simpl. rewrite assign_prefix_copy
      by (rewrite repeat_length, Hv; lia).
    rewrite Hv, skipn_repeat, Nat.sub_diag, app_nil_r. simpl.
    rewrite IH. reflexivity.
Qed.

Lemma update_row_app (a : matrix) (i : nat) (f : vec -> result vec) (m : matrix) :
  update_row (length a + i) f (a ++ m) = rbind (update_row i f m) (fun m' => Ok (a ++ m')).
Proof.
  induction a as [| r a IH]; simpl.
  - destruct (update_row i f m); reflexivity.
  - rewrite IH. destruct (update_row i f m); reflexivity.
Qed.

Lemma diff_from_length (previous : float) (pitch : vec) :
  length (diff_from previous pitch) = length pitch.
Proof.
  revert previous. induction pitch as [| p tl IH]; intros previous; simpl; auto.
Qed.

Lemma diff_prepend_length (pitch : vec) : length (diff_prepend pitch) = length pitch.
Proof. destruct pitch; [reflexivity | apply diff_from_length]. Qed.

Lemma energy_envelope_length (m : matrix) : length (energy_envelope m) = ncols m.
Proof. unfold energy_envelope. now rewrite length_map, length_seq. Qed.

Ltac rewrite_plain H :=
  let E := fresh "E" in
  pose proof H as E; unfold matrix, vec in E |- *; rewrite E; clear E.

Lemma create_sequence_features_layout (mfccs chroma : matrix) (pitch : vec) :
  rectangular mfccs ->
  create_sequence_features mfccs chroma pitch = Ok (sequence_layout mfccs chroma pitch).
Proof.
  intros Hrect. unfold create_sequence_features, sequence_layout. cbv zeta.
  set (n := Nat.min (ncols mfccs) (length pitch)).
  set (cepstral := map (firstn n) mfccs).
  set (z := repeat 0 n).
  set (chroma_features := firstn n (mean_axis0 chroma)).
  set (pitch_diff := firstn n (diff_prepend pitch)).
  set (energy := firstn n (energy_envelope mfccs)).
  assert (Hrows : length mfccs = length cepstral) by (symmetry; apply length_map).
  assert (Hcep : Forall (fun v => length v = n) cepstral).
  { unfold cepstral. apply Forall_map. eapply Forall_impl; [| exact Hrect].
    simpl. intros row Hrow. rewrite length_firstn, Hrow. unfold n. lia. }
  assert (Hn : (n <= ncols mfccs)%nat) by (unfold n; lia).
  assert (Hzlen : length z = n) by apply repeat_length.
  assert (Hchroma : (length chroma_features <= n)%nat)
    by (unfold chroma_features; rewrite length_firstn; lia).
  assert (Hpitch : length (firstn n pitch) = n)
    by (rewrite length_firstn; unfold n; lia).
  assert (Hdiff : length pitch_diff = n)
    by (unfold pitch_diff; rewrite length_firstn, diff_prepend_length; unfold n; lia).
  assert (Henergy : length energy = n)
    by (unfold energy; rewrite length_firstn, energy_envelope_length; unfold n; lia).
  assert (Hskip : skipn n z = []) by (unfold z; now rewrite skipn_repeat, Nat.sub_diag).
  assert (Hpad : chroma_features ++ skipn (length chroma_features) z = pad_to n chroma_features)
    by (unfold pad_to, z; now rewrite skipn_repeat).
  assert (Hz : length (zeros (length mfccs + 4) n) = (length cepstral + 4)%nat)
    by (unfold zeros; rewrite repeat_length; lia).
  rewrite Hz, Hrows. clear Hz.
  replace (length cepstral + 4 - 4)%nat with (length cepstral + 0)%nat by lia.
  replace (length cepstral + 4 - 3)%nat with (length cepstral + 1)%nat by lia.
  replace (length cepstral + 4 - 2)%nat with (length cepstral + 2)%nat by lia.
  replace (length cepstral + 4 - 1)%nat with (length cepstral + 3)%nat by lia.
  unfold matrix, vec in *.
  rewrite_plain (assign_block_zeros (ncols mfccs) n 4 cepstral Hcep Hn).
  unfold rbind at 1. change (zeros 4 n) with [z; z; z; z].
  (* the chroma row *)
  assert (E1 :
    (if Nat.ltb 0 (length chroma_features)
     then update_row (length cepstral + 0)
            (assign_prefix (length chroma_features) chroma_features) (cepstral ++ [z; z; z; z])
     else Ok (cepstral ++ [z; z; z; z]))
    = Ok (cepstral ++ [pad_to n chroma_features; z; z; z])).
  { destruct (Nat.ltb 0 (length chroma_features)) eqn:Hc.
    - rewrite_plain (update_row_app cepstral 0
                       (assign_prefix (length chroma_features) chroma_features) [z; z; z; z]).
      cbn [update_row].
      rewrite_plain (assign_prefix_copy (length chroma_features) chroma_features z
                       ltac:(rewrite Hzlen; lia)).
      cbn [rbind]. now rewrite Hpad.
    - apply Nat.ltb_ge in Hc. rewrite <- Hpad.
      destruct chroma_features; [reflexivity | simpl in Hc; lia]. }
  unfold matrix, vec in *. rewrite E1. unfold rbind at 1. clear E1.
  (* the pitch row *)
  assert (E2 :
    (if Nat.ltb 0 (length pitch)
     then update_row (length cepstral + 1)
            (assign_prefix (Nat.min (length pitch) n) (firstn n pitch))
            (cepstral ++ [pad_to n chroma_features; z; z; z])
     else Ok (cepstral ++ [pad_to n chroma_features; z; z; z]))
    = Ok (cepstral ++ [pad_to n chroma_features; firstn n pitch; z; z])).
  { destruct (Nat.ltb 0 (length pitch)) eqn:Hp.
    - rewrite_plain (update_row_app cepstral 1
                       (assign_prefix (Nat.min (length pitch) n) (firstn n pitch))
                       [pad_to n chroma_features; z; z; z]).
      cbn [update_row].
      rewrite_plain (assign_prefix_copy (Nat.min (length pitch) n) (firstn n pitch) z
                       ltac:(rewrite Hzlen, Hpitch; unfold n; lia)).
      cbn [rbind]. rewrite Hpitch, Hskip, app_nil_r. reflexivity.
    - apply Nat.ltb_ge in Hp. destruct pitch; [| simpl in Hp; lia].
      assert (Hn0 : n = 0%nat) by (unfold n; simpl; lia).
      unfold z. rewrite Hn0. reflexivity. }
  unfold matrix, vec in *. rewrite E2. unfold rbind at 1. clear E2.
  (* the change of the pitch *)
  assert (E3 :
    (if Nat.ltb 1 (length pitch)
     then update_row (length cepstral + 2)
            (assign_prefix (Nat.min (length pitch_diff) n) pitch_diff)
            (cepstral ++ [pad_to n chroma_features; firstn n pitch; z; z])
     else Ok (cepstral ++ [pad_to n chroma_features; firstn n pitch; z; z]))
    = Ok (cepstral ++ [pad_to n chroma_features; firstn n pitch;
                       (if Nat.ltb 1 (length pitch) then pitch_diff else z);
                       z])).
  { destruct (Nat.ltb 1 (length pitch)); [| reflexivity].
    rewrite_plain (update_row_app cepstral 2
                     (assign_prefix (Nat.min (length pitch_diff) n) pitch_diff)
                     [pad_to n chroma_features; firstn n pitch; z; z]).
    cbn [update_row].
    rewrite_plain (assign_prefix_copy (Nat.min (length pitch_diff) n) pitch_diff z
                     ltac:(rewrite Hzlen, Hdiff; lia)).
    cbn [rbind]. rewrite Hdiff, Hskip, app_nil_r. reflexivity. }
  unfold matrix, vec in *. rewrite E3. unfold rbind at 1. clear E3.
  (* the energy *)
  rewrite_plain (update_row_app cepstral 3 (assign_prefix (length energy) energy)
                   [pad_to n chroma_features; firstn n pitch;
                    (if Nat.ltb 1 (length pitch) then pitch_diff else z); z]).
  cbn [update_row].
  rewrite_plain (assign_prefix_copy (length energy) energy z ltac:(rewrite Hzlen, Henergy; lia)).
  cbn [rbind]. rewrite Henergy, Hskip, app_nil_r. reflexivity.
Qed.

Lemma sequence_layout_shape (mfccs chroma : matrix) (pitch : vec) :
  rectangular mfccs ->
  has_shape (length mfccs + 4) (Nat.min (ncols mfccs) (length pitch))
    (sequence_layout mfccs chroma pitch).
Proof.
  intros Hrect. unfold has_shape, sequence_layout. cbv zeta.
  set (n := Nat.min (ncols mfccs) (length pitch)). split.
  - rewrite length_app, length_map. reflexivity.
  - apply Forall_app. split.
    + apply Forall_map. eapply Forall_impl; [| exact Hrect].
      simpl. intros row Hrow. rewrite length_firstn, Hrow. unfold n. lia.
    + repeat constructor.
      * unfold pad_to. rewrite length_app, repeat_length, length_firstn. lia.
      * rewrite length_firstn. unfold n. lia.
      * destruct (Nat.ltb 1 (length pitch)); [| apply repeat_length].
        rewrite length_firstn, diff_prepend_length. unfold n. lia.
      * rewrite length_firstn, energy_envelope_length. unfold n. lia.
Qed.

(** X15. [create_sequence_features] never raises on a cepstral matrix with
    at least one row (numpy has no [shape[1]] for less): the
    sequence matrix has the cepstral rows and four more, and
    [min(frames, len(pitch))] columns; below the truncated cepstral rows
    stand the mean chroma (padded with zeros if the chroma has fewer frames),
    the truncated pitch, its change from frame to frame (zeros for a contour
    of one element) and the energy. *)
Theorem sequence_matrix_layout (mfccs chroma : matrix) (pitch : vec) :
  mfccs <> [] ->
  rectangular mfccs ->
  create_sequence_features mfccs chroma pitch = Ok (sequence_layout mfccs chroma pitch)
  /\ has_shape (length mfccs + 4) (Nat.min (ncols mfccs) (length pitch))
       (sequence_layout mfccs chroma pitch).
Proof.
  intros _ Hrect. split.
  - apply create_sequence_features_layout, Hrect.
  - apply sequence_layout_shape, Hrect.
Qed.

End SequenceMore.

Section SequenceOfAudio.
Context {NP : Numpy} {NS : NumpySum} {LR : Librosa}.

Lemma extract_pitch_contour_unvoiced (y : signal) (sr : Z) :
  forallb (fun p => p =? 0) (clamped_contour y sr) = true ->
  extract_pitch_contour y sr = [0].
Proof.
  intros H. rewrite extract_pitch_contour_cases. cbv zeta.
  fold (clamped_contour y sr). rewrite H, orb_true_r. reflexivity.
Qed.

Lemma extract_pitch_contour_nonempty (y : signal) (sr : Z) :
  (1 <= length (extract_pitch_contour y sr))%nat.
Proof.
  rewrite extract_pitch_contour_cases. cbv zeta.
  fold (clamped_contour y sr).
  destruct (Nat.eqb (length (clamped_contour y sr)) 0) eqn:H0; simpl; [lia |].
  destruct (forallb _ _); simpl; [lia |].
  apply Nat.eqb_neq in H0. lia.
Qed.

(** X16. Audio without any pitch loses its time axis: when no analysis frame
    has a positive pitch estimate the contour is the single element [0.0],
    and the sequence matrix handed to the alignment has 24 rows and one
    column (none if the cepstral matrix has no frame), however long the
    recording is. *)
Theorem unvoiced_audio_has_one_frame_sequence {LL : LibrosaLaws} {LRect : LibrosaRectangular}
  (y : signal) (sr : Z) :
  let y_normalized := apply_voice_normalization y sr in
  forallb (fun p => p =? 0) (clamped_contour y_normalized sr) = true ->
  exists sequence,
    sequence_features_of y sr = Ok sequence
    /\ has_shape 24 (Nat.min (ncols (librosa_feature_mfcc y_normalized sr 20)) 1) sequence.
Proof.
  cbv zeta. intros H. unfold sequence_features_of. cbv zeta.
  rewrite (extract_pitch_contour_unvoiced _ _ H).
  pose proof (mfcc_rectangular (apply_voice_normalization y sr) sr 20) as Hrect.
  rewrite (create_sequence_features_layout _ _ _ Hrect).
  eexists. split; [reflexivity |].
  pose proof (sequence_layout_shape (librosa_feature_mfcc (apply_voice_normalization y sr) sr 20)
                (librosa_feature_chroma_stft (apply_voice_normalization y sr) sr) [0] Hrect)
    as Hshape.
  rewrite mfcc_rows in Hshape. exact Hshape.
Qed.

(** X17. Whenever [process_audio] returns a bundle, the bundle has the
    shapes the matcher and the ranking rely on: a fingerprint of 98
    components, which is the reported [vector_dimension]; three formant
    tracks of one length, a frame per 220 samples past the first 551; four
    pause features; a pitch contour with at least one element; segment
    descriptors of 13 components, at most one per reported interval and none
    when segmentation is switched off; and the sequence matrix built from
    the same buffer has 24 rows and [min(frames, len(pitch_contour))]
    columns. *)
Theorem process_audio_bundle_shape {LL : LibrosaLaws} {LRect : LibrosaRectangular}
  (audio_base64 audio_type : string) (segment : bool) (f : features) :
  process_audio audio_base64 audio_type segment = Ok f ->
  exists y sequence,
    librosa_load audio_base64 (file_extension audio_type) = Ok y
    /\ sequence_features_of y sr_load = Ok sequence
    /\ has_shape 24
         (Nat.min (ncols (librosa_feature_mfcc (apply_voice_normalization y sr_load) sr_load 20))
                  (length (out_pitch_contour f)))
         sequence
    /\ length (out_feature_vector f) = 98%nat
    /\ out_vector_dimension f = 98%nat
    /\ has_shape 3 (formant_frames (length y)) (out_formants f)
    /\ length (out_pause_patterns f) = 4%nat
    /\ (1 <= length (out_pitch_contour f))%nat
    /\ Forall (fun d => length d = 13%nat) (out_segments f)
    /\ (length (out_segments f) <= length (librosa_effects_split y))%nat
    /\ (segment = false -> out_segments f = []).
Proof.
  unfold process_audio.
  destruct (librosa_load audio_base64 (file_extension audio_type)) as [y | e];
    [| discriminate].
  cbn [rbind]. destruct (extract_raw y sr_load) as [[raw f0] | e] eqn:Hraw; [| discriminate].
  cbn [rbind snd]. intros H. injection H as <-.
  destruct (fingerprint_dimension y sr_load raw f0 Hraw) as (_ & Hfv & Hdim).
  destruct (extract_raw_inv y sr_load raw f0 Hraw) as (Hpp & _ & _ & _ & Hpc & Hfm).
  cbn [out_feature_vector out_vector_dimension out_formants out_pause_patterns
       out_pitch_contour out_segments].
  pose proof (mfcc_rectangular (apply_voice_normalization y sr_load) sr_load 20) as Hrect.
  exists y. eexists. split; [reflexivity |]. split.
  { unfold sequence_features_of. cbv zeta.
    apply (create_sequence_features_layout _ _ _ Hrect). }
  split.
  { rewrite Hpc.
    pose proof (sequence_layout_shape
                  (librosa_feature_mfcc (apply_voice_normalization y sr_load) sr_load 20)
                  (librosa_feature_chroma_stft (apply_voice_normalization y sr_load) sr_load)
                  (extract_pitch_contour (apply_voice_normalization y sr_load) sr_load) Hrect)
      as Hshape.
    rewrite mfcc_rows in Hshape. exact Hshape. }
  repeat split.
  - exact Hfv.
  - exact Hdim.
  - rewrite Hfm. apply extract_formants_rows.
  - rewrite Hfm, <- (apply_voice_normalization_length y sr_load).
    apply (extract_formants_columns (apply_voice_normalization y sr_load) 3).
  - destruct (extract_pause_patterns_spec _ _ _ Hpp) as (m & _ & ->). reflexivity.
  - rewrite Hpc. apply extract_pitch_contour_nonempty.
  - destruct segment; [| constructor].
    rewrite segment_audio_filter_map. apply Forall_map, Forall_forall. intros iv _.
    unfold segment_descriptor, mean_axis1. rewrite length_map. apply mfcc_rows.
  - destruct segment; [| simpl; lia].
    rewrite segment_audio_filter_map, length_map. apply filter_length_le.
  - intros ->. reflexivity.
Qed.

End SequenceOfAudio.

Lemma toy_librosa_rectangular (sc : scenario) : @LibrosaRectangular (toy_librosa sc).
Proof.
  constructor. intros y sr n. unfold rectangular. cbn [librosa_feature_mfcc toy_librosa].
  destruct n as [| n]; [constructor |].
  cbn [ncols]. rewrite repeat_length. constructor; [apply repeat_length |].
  apply Forall_forall. intros row Hrow. apply repeat_spec in Hrow. subst row.
  apply repeat_length.
Qed.

Lemma sequence_matrix_layout_witness :
  create_sequence_features (NP := seq_numpy) (NS := seq_numpy_sum)
    [[1; 2; 3]; [4; 5; 6]] [[1; 1]] [10; 12]
  = Ok (sequence_layout (NP := seq_numpy) (NS := seq_numpy_sum)
          [[1; 2; 3]; [4; 5; 6]] [[1; 1]] [10; 12])
  /\ has_shape 6 2
       (sequence_layout (NP := seq_numpy) (NS := seq_numpy_sum)
          [[1; 2; 3]; [4; 5; 6]] [[1; 1]] [10; 12]).
Proof.
  exact (@sequence_matrix_layout seq_numpy seq_numpy_sum
           [[1; 2; 3]; [4; 5; 6]] [[1; 1]] [10; 12]
           ltac:(discriminate) ltac:(repeat constructor)).
Defined.

Lemma unvoiced_audio_has_one_frame_sequence_witness :
  exists sequence,
    sequence_features_of (NP := seq_numpy) (NS := seq_numpy_sum) (LR := toy_librosa unvoiced)
      (repeat 1 600) 22050 = Ok sequence
    /\ has_shape 24 1 sequence.
Proof.
  exact (@unvoiced_audio_has_one_frame_sequence seq_numpy seq_numpy_sum (toy_librosa unvoiced)
           (toy_librosa_laws unvoiced ltac:(discriminate)) (toy_librosa_rectangular unvoiced)
           (repeat 1 600) 22050 ltac:(vm_compute; reflexivity)).
Defined.

Lemma process_audio_bundle_shape_witness :
  exists f sequence,
    process_audio (NP := seq_numpy) (LR := toy_librosa one_pause) "clip" "audio/wav" true = Ok f
    /\ sequence_features_of (NP := seq_numpy) (NS := seq_numpy_sum)
         (LR := toy_librosa one_pause) (decoded one_pause) sr_load = Ok sequence
    /\ has_shape 24 3 sequence
    /\ length (out_feature_vector f) = 98%nat
    /\ has_shape 3 3 (out_formants f)
    /\ length (out_pause_patterns f) = 4%nat
    /\ length (out_pitch_contour f) = 3%nat.
Proof.
  destruct (process_audio (NP := seq_numpy) (LR := toy_librosa one_pause)
              "clip" "audio/wav" true) as [f | e] eqn:Hf;
    [| vm_compute in Hf; discriminate].
  destruct (process_audio_bundle_shape
              (NP := seq_numpy) (NS := seq_numpy_sum) (LR := toy_librosa one_pause)
              (LL := toy_librosa_laws one_pause ltac:(discriminate))
              (LRect := toy_librosa_rectangular one_pause)
              "clip" "audio/wav" true f Hf)
    as (y & sequence & Hy & Hseq & Hshape & Hfv & _ & Hform & Hpause & _).
  injection Hy as <-. exists f, sequence.
  assert (Hcontour : length (out_pitch_contour f) = 3%nat)
    by (vm_compute in Hf; injection Hf as <-; reflexivity).
  rewrite Hcontour in Hshape.
  repeat split; try assumption; try (apply Hshape); try (apply Hform).
Defined.

Section BundleDimension.
Context {NP : Numpy} {LR : Librosa}.

Lemma process_audio_dimension {LL : LibrosaLaws} (audio_base64 audio_type : string)
  (segment : bool) (f : features) :
  process_audio audio_base64 audio_type segment = Ok f ->
  length (out_feature_vector f) = 98%nat.
Proof.
  unfold process_audio.
  destruct (librosa_load audio_base64 (file_extension audio_type)) as [y | e];
    [| discriminate].
  cbn [rbind]. destruct (extract_raw y sr_load) as [[raw f0] | e] eqn:Hraw; [| discriminate].
  cbn [rbind snd]. intros H. injection H as <-.
  cbn [out_feature_vector]. exact (proj1 (proj2 (fingerprint_dimension y sr_load raw f0 Hraw))).
Qed.

End BundleDimension.

Section RankingMore.
Context {NP : Numpy} {DTW : FastDTW} {LR : Librosa} {RNG : Random}.

Lemma scores_before_trans (a b c : match_entry) :
  scores_before a b -> scores_before b c -> scores_before a c.
Proof. unfold scores_before. intros Hab Hbc. exact (leb_trans _ _ _ Hbc Hab). Qed.

Lemma insert_desc_perm (x : match_entry) (l : list match_entry) :
  Permutation (insert_desc x l) (x :: l).
Proof.
  induction l as [| y tl IH]; simpl; [reflexivity |].
  destruct (similarity_score x <? similarity_score y); [| reflexivity].
  rewrite IH. apply perm_swap.
Qed.

Lemma sort_desc_perm (l : list match_entry) : Permutation (sort_desc l) l.
Proof.
  induction l as [| x tl IH]; simpl; [reflexivity |].
  rewrite insert_desc_perm. now constructor.
Qed.

Lemma sorted_prefix_dominates (a b : list match_entry) :
  Sorted scores_before (a ++ b) ->
  Forall (fun m => Forall (scores_before m) b) a.
Proof.
  intros Hs. apply Sorted_StronglySorted in Hs;
    [| intros x y z; apply scores_before_trans].
  induction a as [| x a IH]; simpl in *; [constructor |].
  inversion Hs as [| ? ? Hs' Hx]; subst. constructor; [| exact (IH Hs')].
  apply Forall_app in Hx. exact (proj2 Hx).
Qed.

Lemma match_loop_run (query : vec) (reciters : list reciter) :
  Forall (fun r => length (stored_feature_vector r) = length query) reciters ->
  forall draws matches log,
  exists out,
    match_loop query reciters draws matches log
    = (Ok out, log ++ repeat call_np_dot (length reciters))
    /\ map entry_key out
       = map entry_key matches ++ map (candidate_key query) (passing query reciters).
Proof.
  induction 1 as [| r rest Hr _ IH]; intros draws matches log; cbn [match_loop].
  - exists matches. unfold ret. cbn. rewrite !app_nil_r. auto.
  - unfold bind. rewrite (calculate_similarity_cosine _ _ _ _ (eq_sym Hr)).
    cbn [length repeat passing filter].
    match goal with
    | |- context [match_loop query rest ?d ?m ?l] => destruct (IH d m l) as (out & Hout & Hkeys)
    end.
    exists out. rewrite Hout. split.
    + rewrite <- app_assoc. reflexivity.
    + rewrite Hkeys. unfold passing.
      destruct (0.4 <? np_inner query (stored_feature_vector r)).
      * rewrite map_app, <- app_assoc. reflexivity.
      * reflexivity.
Qed.

Lemma match_loop_raises (query : vec) (reciters : list reciter) :
  Exists (fun r => length (stored_feature_vector r) <> length query) reciters ->
  forall draws matches log,
  exists log', match_loop query reciters draws matches log = (Raise ValueError, log').
Proof.
  induction reciters as [| r rest IH]; intros Hex draws matches log; [inversion Hex |].
  cbn [match_loop]. unfold bind.
  destruct (Nat.eq_dec (length query) (length (stored_feature_vector r))) as [E | Hne].
  - rewrite (calculate_similarity_cosine _ _ _ _ E).
    apply IH. inversion Hex as [? ? Hr | ? ? Hrest]; subst; [congruence | exact Hrest].
  - rewrite (calculate_similarity_raises _ _ _ _ _ _ Hne). eauto.
Qed.

(** X18. With every stored fingerprint of the query's dimension the ranking
    is returned at the cost of one [np.dot] per candidate, and it reports the
    best candidates: the reported entries followed by the entries left out
    are the candidates scoring above 0.4 up to order, each with its own id,
    name, style and score; [min(5, number of such candidates)] entries are
    reported; and no entry left out scores higher than a reported one. *)
Theorem ranking_reports_the_best (query : vec) (reciters : list reciter) (log : list call) :
  Forall (fun r => length (stored_feature_vector r) = length query) reciters ->
  exists top rest,
    rank_reciters query reciters log
    = (Ok top, log ++ repeat call_np_dot (length reciters))
    /\ Permutation (map entry_key (top ++ rest))
         (map (candidate_key query) (passing query reciters))
    /\ length top = Nat.min 5 (length (passing query reciters))
    /\ Forall (fun m => Forall (scores_before m) rest) top.
Proof.
  intros Hdim. destruct (match_loop_run query reciters Hdim 0%nat [] log) as (out & Hout & Hkeys).
  cbn [map app] in Hkeys.
  exists (firstn 5 (sort_desc out)), (skipn 5 (sort_desc out)).
  rewrite rank_reciters_unfold, Hout.
  assert (Habove : Forall above_threshold out)
    by exact (match_loop_above _ _ _ _ _ _ _ Hout (Forall_nil _)).
  assert (Hlen : length out = length (passing query reciters)).
  { rewrite <- (length_map entry_key out), Hkeys. apply length_map. }
  split; [reflexivity |]. split; [| split].
  - rewrite firstn_skipn, <- Hkeys. apply Permutation_map, sort_desc_perm.
  - rewrite length_firstn, (Permutation_length (sort_desc_perm out)), Hlen. reflexivity.
  - apply sorted_prefix_dominates. rewrite firstn_skipn.
    apply sort_desc_sorted, Habove.
Qed.

(** X19. The seven aspect scores of an entry are the seven aspect names in
    their order, each with a value between 0 and 1 whatever the similarity
    and the random factor are (a NaN product gives 0). *)
Theorem aspect_scores_are_clipped (similarity : float) (n : nat) :
  map fst (make_aspect_scores similarity n) = aspect_names
  /\ Forall (fun p => unit_interval (snd p)) (make_aspect_scores similarity n).
Proof.
  unfold make_aspect_scores. split.
  - rewrite map_map. cbn. reflexivity.
  - apply Forall_map, Forall_forall. intros p _. cbn [snd]. apply clip_unit_interval.
Qed.

(** X20. One stored fingerprint of another dimension than 98 makes the
    handler answer every request with an error, whatever the audio is and
    however well the other candidates match. *)
Theorem one_bad_fingerprint_fails_every_request {LL : LibrosaLaws}
  (audio_base64 : option string) (audio_type : string) (reciters : list reciter) :
  Exists (fun r => length (stored_feature_vector r) <> 98%nat) reciters ->
  exists error_message, do_POST audio_base64 audio_type reciters = send_error error_message.
Proof.
  intros Hbad. unfold do_POST.
  destruct audio_base64 as [[| c audio] |]; eauto.
  pose proof (process_audio_dimension (String c audio) audio_type true) as Hbundle.
  destruct (process_audio (String c audio) audio_type true) as [f | e]; eauto.
  specialize (Hbundle f eq_refl).
  assert (Hex : Exists (fun r => length (stored_feature_vector r)
                                 <> length (out_feature_vector f)) reciters)
    by (rewrite Hbundle; exact Hbad).
  rewrite rank_reciters_unfold.
  destruct (match_loop_raises _ _ Hex 0%nat [] []) as (log' & ->). eauto.
Qed.

End RankingMore.

Lemma ranking_reports_the_best_witness :
  exists top rest,
    rank_reciters (NP := seq_numpy) (DTW := exact_dtw) (RNG := fixed_random) [1; 0] candidates []
    = (Ok top, [] ++ repeat call_np_dot 9)
    /\ Permutation (map entry_key (top ++ rest))
         (map (candidate_key (NP := seq_numpy) [1; 0]) (passing (NP := seq_numpy) [1; 0] candidates))
    /\ length top = 5%nat
    /\ Forall (fun m => Forall (scores_before m) rest) top.
Proof.
  exact (ranking_reports_the_best (NP := seq_numpy) (DTW := exact_dtw) (RNG := fixed_random)
           [1; 0] candidates [] ltac:(repeat constructor)).
Defined.

Lemma one_bad_fingerprint_fails_every_request_witness :
  exists error_message,
    do_POST (NP := seq_numpy) (DTW := exact_dtw) (LR := toy_librosa one_pause)
      (RNG := fixed_random)
      (Some "clip"%string) "audio/wav" [candidate 1 [1; 0]]
    = send_error error_message.
Proof.
  exact (one_bad_fingerprint_fails_every_request
           (NP := seq_numpy) (DTW := exact_dtw) (LR := toy_librosa one_pause)
           (RNG := fixed_random) (LL := toy_librosa_laws one_pause ltac:(discriminate))
           (Some "clip"%string) "audio/wav" [candidate 1 [1; 0]]
           ltac:(constructor; simpl; discriminate)).
Defined.

Section PredictorMore.
Context {NP : Numpy} {SA : SpeakerAudio}.

Lemma py_range_length (excess step : nat) :
  (0 < step)%nat ->
  length (py_range (Z.of_nat (excess + 1)) (Z.of_nat step)) = (excess / step + 1)%nat.
Proof.
  intros Hs. unfold py_range. rewrite length_map, length_seq.
  replace (Z.of_nat (excess + 1) + Z.of_nat step - 1)%Z
    with (Z.of_nat excess + 1 * Z.of_nat step)%Z by lia.
  rewrite Z.div_add by lia. rewrite <- Nat2Z.inj_div. lia.
Qed.

Lemma py_range_bound (excess step : nat) (start : Z) :
  (0 < step)%nat ->
  In start (py_range (Z.of_nat (excess + 1)) (Z.of_nat step)) ->
  (Z.to_nat start <= excess)%nat.
Proof.
  intros Hs Hin. unfold py_range in Hin. apply in_map_iff in Hin.
  destruct Hin as (k & <- & Hk). apply in_seq in Hk.
  replace (Z.of_nat (excess + 1) + Z.of_nat step - 1)%Z
    with (Z.of_nat excess + 1 * Z.of_nat step)%Z in Hk by lia.
  rewrite Z.div_add in Hk by lia. rewrite <- Nat2Z.inj_div in Hk.
  assert (Hle : (k <= excess / step)%nat) by lia.
  pose proof (Nat.Div0.mul_div_le excess step) as Hmul.
  rewrite <- Nat2Z.inj_mul, Nat2Z.id. nia.
Qed.

Lemma segment_count_bounds (n_time max_length : nat) :
  (1 <= segment_count n_time max_length <= 8)%nat
  /\ ((max_length + 4 <= n_time)%nat -> (5 <= segment_count n_time max_length)%nat)
  /\ ((n_time <= max_length)%nat -> segment_count n_time max_length = 1%nat).
Proof.
  unfold segment_count. destruct (Nat.ltb max_length n_time) eqn:Hlt.
  - apply Nat.ltb_lt in Hlt. set (excess := (n_time - max_length)%nat).
    assert (He : (1 <= excess)%nat) by (unfold excess; lia).
    destruct (Nat.lt_ge_cases excess 4) as [Hsmall | Hbig].
    + assert (Hq : (excess / 4 = 0)%nat) by (apply Nat.div_small; exact Hsmall).
      rewrite Hq. cbn [Nat.max]. rewrite Nat.div_1_r. unfold excess in *. lia.
    + assert (Hq : (1 <= excess / 4)%nat)
        by (apply Nat.div_le_lower_bound; lia).
      rewrite Nat.max_r by exact Hq.
      pose proof (Nat.div_mod_eq excess 4) as Hdm.
      pose proof (Nat.mod_upper_bound excess 4 ltac:(lia)) as Hr.
      assert (Hlow : (4 <= excess / (excess / 4))%nat)
        by (apply Nat.div_le_lower_bound; lia).
      assert (Hup : (excess / (excess / 4) < 8)%nat)
        by (apply Nat.Div0.div_lt_upper_bound; lia).
      unfold excess in *. lia.
  - apply Nat.ltb_ge in Hlt. lia.
Qed.

(** X21. The classifier's [extract_features] always returns windows of the
    same shape: every window has the rows of the spectrogram and exactly
    [max_length] frames.  A spectrogram of at most [max_length] frames gives
    one window, padded with zeros; a longer one gives between 2 and 8
    windows, and at least 5 when it exceeds [max_length] by 4 frames or
    more; no window reaches past the last frame. *)
Theorem extract_features_windows (audio_path : string) (max_length : nat)
  (audio : signal) (mel_spec : matrix) :
  load_16k audio_path = Ok audio ->
  log_mel_spectrogram audio = Ok mel_spec ->
  mel_spec <> [] ->
  rectangular mel_spec ->
  exists segments,
    extract_features audio_path max_length = Some segments
    /\ Forall (has_shape (length mel_spec) max_length) segments
    /\ length segments = segment_count (ncols mel_spec) max_length
    /\ (1 <= length segments <= 8)%nat
    /\ ((max_length + 4 <= ncols mel_spec)%nat -> (5 <= length segments)%nat).
Proof.
  intros Hload Hmel Hne Hrect. unfold extract_features. rewrite Hload. cbn [rbind].
  rewrite Hmel. cbv zeta.
  set (normalized :=
         map (map (fun x => (x - np_mean (concat mel_spec)) / (np_std (concat mel_spec) + 1e-8)))
             mel_spec).
  assert (Hshape : shape1 normalized = Ok (ncols mel_spec)).
  { unfold normalized. destruct mel_spec as [| row tl]; [congruence |].
    cbn [map shape1 ncols]. now rewrite length_map. }
  assert (Hrows : Forall (fun row => length row = ncols mel_spec) normalized).
  { unfold normalized. apply Forall_map. eapply Forall_impl; [| exact Hrect].
    cbn beta. intros row Hrow. now rewrite length_map. }
  rewrite Hshape.
  destruct (segment_count_bounds (ncols mel_spec) max_length) as (Hb & H5 & _).
  unfold segment_count in *.
  destruct (Nat.ltb max_length (ncols mel_spec)) eqn:Hlt.
  - apply Nat.ltb_lt in Hlt.
    set (excess := (ncols mel_spec - max_length)%nat) in *.
    set (step := Nat.max 1 (excess / 4)) in *.
    assert (Hstep : (0 < step)%nat) by (unfold step; lia).
    eexists. split; [reflexivity |].
    rewrite length_map, (py_range_length excess step Hstep).
    split; [| split; [reflexivity | split; assumption]].
    apply Forall_map, Forall_forall. intros start Hstart.
    pose proof (py_range_bound excess step start Hstep Hstart) as Hle.
    unfold has_shape. split.
    + unfold normalized. now rewrite !length_map.
    + apply Forall_map. eapply Forall_impl; [| exact Hrows].
      cbn beta. intros row Hrow. unfold slice.
      rewrite length_firstn, length_skipn, Hrow. unfold excess in Hle. lia.
  - apply Nat.ltb_ge in Hlt. eexists. split; [reflexivity |].
    split; [| split; [reflexivity | split; [simpl; lia | intros; lia]]].
    constructor; [| constructor]. unfold has_shape. split.
    + unfold normalized. now rewrite !length_map.
    + apply Forall_map. eapply Forall_impl; [| exact Hrows].
      cbn beta. intros row Hrow. rewrite length_app, repeat_length, Hrow. lia.
Qed.

End PredictorMore.

Lemma extract_features_windows_witness :
  exists segments,
    extract_features (NP := seq_numpy)
      (SA := fixed_spectrogram [[1; 2; 3; 4; 5; 6; 7]; [7; 6; 5; 4; 3; 2; 1]]) "clip" 3
    = Some segments
    /\ Forall (has_shape 2 3) segments
    /\ length segments = 5%nat
    /\ (1 <= length segments <= 8)%nat
    /\ ((3 + 4 <= 7)%nat -> (5 <= length segments)%nat).
Proof.
  exact (extract_features_windows (NP := seq_numpy)
           (SA := fixed_spectrogram [[1; 2; 3; 4; 5; 6; 7]; [7; 6; 5; 4; 3; 2; 1]])
           "clip" 3 [] [[1; 2; 3; 4; 5; 6; 7]; [7; 6; 5; 4; 3; 2; 1]]
           eq_refl eq_refl ltac:(discriminate) ltac:(repeat constructor)).
Defined.

Section Cost.
Context {NP : Numpy} {DTW : FastDTW}.

Lemma mapM_segment_cosine_run (k : nat) (ref_seg : vec) (query : list vec) (log : list call) :
  length ref_seg = k ->
  Forall (fun s => length s = k) query ->
  exists row,
    mapM (fun q_seg => segment_cosine ref_seg q_seg) query log
    = (Ok row, log ++ repeat call_np_dot (length query)).
Proof.
  intros Hk Hq. revert log. induction Hq as [| q tl Hlen _ IH]; intros log; cbn [mapM].
  - exists []. unfold ret. cbn. now rewrite app_nil_r.
  - unfold bind. unfold segment_cosine at 1.
    rewrite np_dot_run by (rewrite !length_map; congruence).
    destruct (IH (log ++ [call_np_dot])) as (row & ->). unfold ret.
    eexists. rewrite <- app_assoc. reflexivity.
Qed.

Lemma mapM_sim_matrix_run (k : nat) (reference query : list vec) (log : list call) :
  Forall (fun s => length s = k) reference ->
  Forall (fun s => length s = k) query ->
  exists sim_matrix,
    mapM (fun ref_seg => mapM (fun q_seg => segment_cosine ref_seg q_seg) query) reference log
    = (Ok sim_matrix, log ++ repeat call_np_dot (length reference * length query)).
Proof.
  intros Hr Hq. revert log. induction Hr as [| r tl Hlen _ IH]; intros log; cbn [mapM].
  - exists []. unfold ret. cbn. now rewrite app_nil_r.
  - unfold bind.
    destruct (mapM_segment_cosine_run k r query log Hlen Hq) as (row & ->).
    destruct (IH (log ++ repeat call_np_dot (length query))) as (m & ->). unfold ret.
    eexists. cbn [length Nat.mul]. rewrite repeat_app, app_assoc. reflexivity.
Qed.

(** X22. With all segment descriptors of one length, [compare_segments]
    returns a score after exactly one [np.dot] per pair of a segment of the
    first sample and a segment of the second: the cost is the product of the
    two numbers of segments, whichever list is the longer one. *)
Theorem compare_segments_cost (k : nat) (segments1 segments2 : list vec) (log : list call) :
  Forall (fun s => length s = k) segments1 ->
  Forall (fun s => length s = k) segments2 ->
  exists v,
    compare_segments segments1 segments2 log
    = (Ok v, (log ++ [call_compare_segments])
               ++ repeat call_np_dot (length segments1 * length segments2)).
Proof.
  intros H1 H2. unfold compare_segments, bind, tick.
  destruct segments1 as [| a1 t1];
    [exists 0; unfold ret; cbn; now rewrite app_nil_r |].
  destruct segments2 as [| a2 t2];
    [exists 0; unfold ret; rewrite Nat.mul_0_r; cbn; now rewrite app_nil_r |].
  destruct (Nat.leb (length (a2 :: t2)) (length (a1 :: t1))).
  - destruct (mapM_sim_matrix_run k (a1 :: t1) (a2 :: t2) (log ++ [call_compare_segments])
                H1 H2) as (m & ->).
    destruct (snd (greedy_matches m (length (a2 :: t2)))); unfold ret; eauto.
  - destruct (mapM_sim_matrix_run k (a2 :: t2) (a1 :: t1) (log ++ [call_compare_segments])
                H2 H1) as (m & ->).
    rewrite (Nat.mul_comm (length (a2 :: t2))).
    destruct (snd (greedy_matches m (length (a1 :: t1)))); unfold ret; eauto.
Qed.

End Cost.

Section Comparable.
Context {NP : Numpy} {DTW : FastDTW} {LR : Librosa} {RNG : Random}.

(** X23. Fingerprints that [process_audio] produced can always be compared:
    two of them have the same dimension, so [calculate_similarity] returns
    their dot product, and a ranking over candidates whose stored
    fingerprints were produced by [process_audio] never fails on a
    dimension. *)
Theorem fingerprints_are_comparable {LL : LibrosaLaws}
  (audio audio_type : string) (segment : bool) (f : features)
  (reciters : list reciter) (method : string) (log : list call) :
  process_audio audio audio_type segment = Ok f ->
  Forall (fun r => exists audio' audio_type' segment' f',
                     process_audio audio' audio_type' segment' = Ok f'
                     /\ stored_feature_vector r = out_feature_vector f') reciters ->
  Forall (fun r =>
            calculate_similarity (out_feature_vector f) (stored_feature_vector r) method
              None None log
            = (Ok (np_inner (out_feature_vector f) (stored_feature_vector r)),
               log ++ [call_np_dot])) reciters
  /\ exists top,
       rank_reciters (out_feature_vector f) reciters log
       = (Ok top, log ++ repeat call_np_dot (length reciters)).
Proof.
  intros Hf Hstored.
  pose proof (process_audio_dimension _ _ _ _ Hf) as Hdim.
  assert (Hall : Forall (fun r => length (stored_feature_vector r)
                                  = length (out_feature_vector f)) reciters).
  { eapply Forall_impl; [| exact Hstored]. cbn beta.
    intros r (a' & t' & s' & f' & Hf' & ->).
    rewrite Hdim. exact (process_audio_dimension _ _ _ _ Hf'). }
  split.
  - eapply Forall_impl; [| exact Hall]. cbn beta. intros r Hr.
    apply calculate_similarity_cosine. congruence.
  - destruct (match_loop_run _ _ Hall 0%nat [] log) as (out & Hout & _).
    rewrite rank_reciters_unfold, Hout. eauto.
Qed.

End Comparable.

Lemma compare_segments_cost_witness :
  exists v,
    compare_segments (NP := seq_numpy) [[3; 4]; [1; 0]] [[1; 0]] []
    = (Ok v, ([] ++ [call_compare_segments]) ++ repeat call_np_dot (2 * 1)).
Proof.
  exact (compare_segments_cost (NP := seq_numpy) 2 [[3; 4]; [1; 0]] [[1; 0]] []
           ltac:(repeat constructor) ltac:(repeat constructor)).
Defined.

Lemma fingerprints_are_comparable_witness :
  exists f top,
    process_audio (NP := seq_numpy) (LR := toy_librosa one_pause) "clip" "audio/wav" true = Ok f
    /\ rank_reciters (NP := seq_numpy) (DTW := exact_dtw) (RNG := fixed_random)
         (out_feature_vector f) [candidate 1 (out_feature_vector f)] []
       = (Ok top, [] ++ repeat call_np_dot 1).
Proof.
  destruct (process_audio (NP := seq_numpy) (LR := toy_librosa one_pause)
              "clip" "audio/wav" true) as [f | e] eqn:Hf;
    [| vm_compute in Hf; discriminate].
  exists f.
  destruct (fingerprints_are_comparable (NP := seq_numpy) (DTW := exact_dtw)
              (LR := toy_librosa one_pause) (RNG := fixed_random)
              (LL := toy_librosa_laws one_pause ltac:(discriminate))
              "clip" "audio/wav" true f [candidate 1 (out_feature_vector f)]
              "combined" [] Hf
              ltac:(constructor; [exists "clip"%string, "audio/wav"%string, true, f;
                                  split; [exact Hf | reflexivity] | constructor]))
    as [_ [top Htop]].
  exists top. split; [reflexivity | exact Htop].
Defined.

(** * Further runs of the extractors *)

(** The float32 comparison of the envelope: the middle frame of [borderline]
    is below [0.05 * 7] as float64 numbers, but it is the float32 value of
    that threshold, so the code does not count it as a pause, under either
    promotion rule of numpy. *)
Example borderline_frame_run :
  (0.3499999940395355 <? 0.05 * 7) = true
  /\ pause_threshold (NP := seq_numpy) 7 = 0.3499999940395355
  /\ pause_threshold (NP := seq_numpy_legacy) 7 = 0.3499999940395355
  /\ extract_pause_patterns (NP := seq_numpy) (LR := toy_librosa borderline)
       (decoded borderline) 22050 = Ok [0; 0; 0; 0]
  /\ extract_pause_patterns (NP := seq_numpy_legacy) (LR := toy_librosa borderline)
       (decoded borderline) 22050 = Ok [0; 0; 0; 0].
Proof. repeat split; vm_compute; reflexivity. Qed.

(** A NaN estimate passes the clamp: [nan <= 0] is false. *)
Example nan_estimate_run :
  extract_pitch_contour (LR := toy_librosa nan_estimate) (decoded nan_estimate) 22050
  = [50; nan; 0].
Proof. vm_compute. reflexivity. Qed.
